(** * INI-file initialisation of a joint: a shallow embedding of
      [src/emc/ini/inijoint.cc]

    The file embeds [loadJoint], [iniJoint], [iniGetFloatPrec],
    [iniFormatFloat] and [iniFormatFloat2] and proves the properties the
    specification states about them.

    Conventions of the embedding.
    - A C [int] is a [Z]; the code does no arithmetic on the integers it
      reads apart from counting the digits of a string, so no wrap-around
      occurs for strings shorter than 2^31 characters.
    - A C [double] is a binary64 [float]; the code only stores literals
      and hands values on.
    - A [const char *] is the [string] of the characters in front of the
      terminating NUL, so [EmptyString] is the place where [*ptr == 0]
      holds.
    - [loadJoint] formats the section name into a 16 byte buffer, which is
      large enough for every joint number below 10^9; the embedding builds
      the name without a bound. *)

From Stdlib Require Import ZArith List String Ascii Bool Lia PrimFloat.
From Stdlib Require Import NArith DecimalString DecimalZ DecimalPos.
From Stdlib Require DecimalFacts.
Import ListNotations.

Local Open Scope string_scope.
Local Open Scope Z_scope.

#[local] Set Warnings "-inexact-float".

(** ** The part of [<stdio.h>] and [<ctype.h>] the code uses *)

Module Cstdio.

(** An argument of the variable argument list of [sprintf]. *)
Inductive arg : Type :=
| arg_s (s : string)    (* consumed by [%s] *)
| arg_d (n : Z).        (* consumed by [%d] *)

(** [%d] of an [int]. *)
Definition decimal (n : Z) : string :=
  NilZero.string_of_int (Z.to_int n).

Definition newline : string := String "010"%char EmptyString.

(** [sprintf] restricted to the directives [%s], [%d] and [%%].  A
    directive without a matching argument is undefined behaviour in C;
    here it prints nothing. *)
Fixpoint sprintf (fmt : string) (args : list arg) : string :=
  match fmt with
  | EmptyString => EmptyString
  | String "%" (String "%" rest) => String "%" (sprintf rest args)
  | String "%" (String "s" rest) =>
      match args with
      | arg_s s :: args' => s ++ sprintf rest args'
      | _ => sprintf rest (tl args)
      end
  | String "%" (String "d" rest) =>
      match args with
      | arg_d n :: args' => decimal n ++ sprintf rest args'
      | _ => sprintf rest (tl args)
      end
  | String c rest => String c (sprintf rest args)
  end.

(** [isdigit] in the C locale. *)
Definition isdigit (c : ascii) : bool :=
  (48 <=? nat_of_ascii c)%nat && (nat_of_ascii c <=? 57)%nat.

End Cstdio.

Import Cstdio.

(** ** The float-precision helpers *)

Definition INIFILE_MIN_FLOAT_PRECISION : Z := 3.

(** The first loop of [iniGetFloatPrec]: walk to the decimal point.
    [None] is the [return INIFILE_MIN_FLOAT_PRECISION] at the end of the
    string; [Some ptr] is the pointer after [break] and the [ptr++] that
    steps over the point. *)
Fixpoint find_point (ptr : string) : option string :=
  match ptr with
  | EmptyString => None
  | String c ptr' =>
      if Ascii.eqb c "." then Some ptr' else find_point ptr'
  end.

(** The second loop: count digits until the end or a non-digit. *)
Fixpoint count_digits (ptr : string) (prec : Z) : Z :=
  match ptr with
  | EmptyString => prec
  | String c ptr' =>
      if negb (isdigit c) then prec else count_digits ptr' (prec + 1)
  end.

Definition iniGetFloatPrec (str : string) : Z :=
  match find_point str with
  | None => INIFILE_MIN_FLOAT_PRECISION
  | Some ptr =>
      let prec := count_digits ptr 0 in
      if prec >? INIFILE_MIN_FLOAT_PRECISION
      then prec else INIFILE_MIN_FLOAT_PRECISION
  end.


Definition iniFormatFloat2 (var val : string) : Z * string :=
  let prec := iniGetFloatPrec val in
  (0, sprintf ("%s = %%.%df %%.%df" ++ newline)
              [arg_s var; arg_d prec; arg_d prec]).

(** ** Joint types of [emc.hh] *)

Inductive EmcJointType : Type :=
| EMC_JOINT_LINEAR
| EMC_JOINT_ANGULAR.

(** ** The ini file ([emcIniFile.hh], not part of the sources at hand) *)

Module IniFile.

(** Modelled from the spec: the error codes of the configuration
    source that the loader can meet, "key absent" split the way the
    constructor call in [iniJoint] names it (section or tag), and
    "present-but-malformed". *)
Inductive ErrorCode : Type :=
| ERR_SECTION_NOT_FOUND
| ERR_TAG_NOT_FOUND
| ERR_CONVERSION.

Definition ErrorCode_eqb (a b : ErrorCode) : bool :=
  match a, b with
  | ERR_SECTION_NOT_FOUND, ERR_SECTION_NOT_FOUND
  | ERR_TAG_NOT_FOUND, ERR_TAG_NOT_FOUND
  | ERR_CONVERSION, ERR_CONVERSION => true
  | _, _ => false
  end.

(** Modelled from the spec: the conversion failure the source raises,
    "reporting which key/section failed". *)
Record Exception : Type := mkException {
  errCode : ErrorCode;
  errTag : string;
  errSection : string
}.

(** Modelled from the spec: a "textual, section-keyed configuration
    source": sections in file order, each a list of [TAG = value]
    lines; the first match wins. *)
Definition document : Type := list (string * list (string * string)).

(** Modelled from the spec: lookup by key, the first entry wins. *)
Fixpoint assoc {A : Type} (k : string) (l : list (string * A))
  : option A :=
  match l with
  | [] => None
  | (k', a) :: l' => if String.eqb k k' then Some a else assoc k l'
  end.

(** Modelled from the spec: "lookup by key+section"; the raw text
    under [tag] in [section], or the reason there is none. *)
Definition lookup (d : document) (tag section : string)
  : ErrorCode + string :=
  match assoc section d with
  | None => inl ERR_SECTION_NOT_FOUND
  | Some lines =>
      match assoc tag lines with
      | None => inl ERR_TAG_NOT_FOUND
      | Some v => inr v
      end
  end.

(** Modelled from the spec: an open ini file with its configurable
    error mode, the set of error codes that are raised as exceptions
    instead of being returned. *)
Record EmcIniFile : Type := mkIniFile {
  errMask : list ErrorCode;
  doc : document
}.

(** Modelled from the spec: "exception/error mode is configurable";
    the call replaces the error mode of the file. *)
Definition EnableExceptions (f : EmcIniFile) (mask : list ErrorCode)
  : EmcIniFile :=
  mkIniFile mask (doc f).

(** Modelled from the spec: is the error [e] signalled by an
    exception? *)
Definition raises (f : EmcIniFile) (e : ErrorCode) : bool :=
  existsb (ErrorCode_eqb e) (errMask f).

(** Modelled from the spec: the typed lookups of the source, one per
    type of the out-parameter, the two unit-aware variants and the raw
    string lookup. *)
Inductive conversion : Type :=
| AsJointType
| AsDouble
| AsBool
| AsInt
| AsLinearUnits
| AsAngularUnits
| AsString.

End IniFile.

Import IniFile.

(** ** Calls into the motion controller *)

Inductive call : Type :=
| emcJointSetJoint (joint : Z) (jointType : EmcJointType)
| emcJointSetUnits (joint : Z) (units : float)
| emcJointSetBacklash (joint : Z) (backlash : float)
| emcJointSetMinPositionLimit (joint : Z) (limit : float)
| emcJointSetMaxPositionLimit (joint : Z) (limit : float)
| emcJointSetFerror (joint : Z) (ferror : float)
| emcJointSetMinFerror (joint : Z) (ferror : float)
| emcJointSetHomingParams (joint : Z)
    (home offset home_vel search_vel latch_vel : float)
    (use_index ignore_limits is_shared sequence volatile_home : Z)
| emcJointSetMaxVelocity (joint : Z) (vel : float)
| emcJointSetMaxAcceleration (joint : Z) (acc : float)
| emcJointLoadComp (joint : Z) (file : string) (type : Z)
| emcJointActivate (joint : Z).

(** What a run does to the world around it, in the order it happens:
    reads of the ini file, calls into the controller with the value each
    returned, and lines written to the error channel. *)
Inductive event : Type :=
| Lookup (how : conversion) (tag section : string)
| Call (c : call) (ret : Z)
| rcs_print_error (msg : string)
| Exception_Print (e : Exception).

(** ** What the loader takes from the rest of the program

    The controller, the text conversions of the ini file, the trajectory
    units, the constants of [emccfg.h] and [emcglb.h] and the file
    system are not part of [inijoint.cc]; the loader is embedded over
    any choice of them. *)

Record Environment : Type := mkEnvironment {
  (* the motion controller behind the [emcJoint...] functions *)
  Controller : Type;
  controller : Controller -> call -> Z * Controller;
  (* the string conversions of [EmcIniFile] *)
  conv_jointType : string -> option EmcJointType;
  conv_double : string -> option float;
  conv_bool : string -> option bool;
  conv_int : string -> option Z;
  conv_linear : string -> option float;
  conv_angular : string -> option float;
  (* trajectory units, [emccfg.h] defaults and [emcglb.h] debug flags *)
  emcTrajGetLinearUnits : float;
  emcTrajGetAngularUnits : float;
  DEFAULT_JOINT_MAX_VELOCITY : float;
  DEFAULT_JOINT_MAX_ACCELERATION : float;
  EMC_DEBUG : Z;
  EMC_DEBUG_CONFIG : Z;
  (* the files [Open] can read *)
  files : string -> option document;
  (* the content of an [int] that was declared without initialiser *)
  indeterminate : Z
}.

(** ** Control flow and effects of the C++ code *)

(** How a statement ends: it falls through to the next statement with a
    value, it leaves the function by [return r], or it raises. *)
Inductive outcome (A : Type) : Type :=
| Normal (a : A)
| Return (r : Z)
| Throw (e : Exception).

Arguments Normal {A} a.
Arguments Return {A} r.
Arguments Throw {A} e.

Section Loader.

Variable env : Environment.

(** A statement runs against the controller and yields its outcome,
    the controller afterwards and the events it caused. *)
Definition M (A : Type) : Type :=
  Controller env -> outcome A * Controller env * list event.

Definition ret {A : Type} (a : A) : M A :=
  fun c => (Normal a, c, []).

Definition bind {A B : Type} (m : M A) (k : A -> M B) : M B :=
  fun c =>
    match m c with
    | (Normal a, c1, l1) =>
        let '(o, c2, l2) := k a c1 in (o, c2, (l1 ++ l2)%list)
    | (Return r, c1, l1) => (Return r, c1, l1)
    | (Throw e, c1, l1) => (Throw e, c1, l1)
    end.

Definition return_ {A : Type} (r : Z) : M A :=
  fun c => (Return r, c, []).

Definition throw {A : Type} (e : Exception) : M A :=
  fun c => (Throw e, c, []).

Definition tell (e : event) : M unit :=
  fun c => (Normal tt, c, [e]).

(** [try { body } catch (Exception &e) { handler e }] *)
Definition try_catch {A : Type} (body : M A) (handler : Exception -> M A)
  : M A :=
  fun c =>
    match body c with
    | (Throw e, c1, l1) =>
        let '(o, c2, l2) := handler e c1 in (o, c2, (l1 ++ l2)%list)
    | other => other
    end.

(** The value of a call expression whose callee ran as [m]. *)
Definition call_function (m : M Z) : M Z :=
  fun c =>
    match m c with
    | (Return r, c1, l1) => (Normal r, c1, l1)
    | other => other
    end.

Notation "x <- m ;; k" := (bind m (fun x => k))
  (at level 61, m at next level, right associativity).
Notation "m ;; k" := (bind m (fun _ => k))
  (at level 61, right associativity).

(** A call of one of the [emcJoint...] functions. *)
Definition invoke (f : call) : M Z :=
  fun c =>
    let '(r, c') := controller env c f in (Normal r, c', [Call f r]).

(** Modelled from the spec: [find(outValue, key, section)], typed by
    the type of [outValue].  The lookup reads the file.  A value that
    converts is stored; an absent key or a present-but-malformed value
    raises when the error mode asks for it and otherwise leaves
    [result] as it was. *)
Definition Find_as {A : Type} (how : conversion)
    (conv : string -> option A)
    (f : EmcIniFile) (result : A) (tag section : string) : M A :=
  tell (Lookup how tag section) ;;
  match lookup (doc f) tag section with
  | inl err =>
      if raises f err then throw (mkException err tag section)
      else ret result
  | inr text =>
      match conv text with
      | Some v => ret v
      | None =>
          if raises f ERR_CONVERSION
          then throw (mkException ERR_CONVERSION tag section)
          else ret result
      end
  end.

Definition Find_jointType := Find_as AsJointType (conv_jointType env).
Definition Find_double := Find_as AsDouble (conv_double env).
Definition Find_bool := Find_as AsBool (conv_bool env).
Definition Find_int := Find_as AsInt (conv_int env).
Definition FindLinearUnits := Find_as AsLinearUnits (conv_linear env).
Definition FindAngularUnits := Find_as AsAngularUnits (conv_angular env).

(** Modelled from the spec: [find(key, section) -> optional<string>],
    the raw lookup; [None] is the NULL pointer. *)
Definition Find_string (f : EmcIniFile) (tag section : string)
  : M (option string) :=
  tell (Lookup AsString tag section) ;;
  match lookup (doc f) tag section with
  | inl err =>
      if raises f err then throw (mkException err tag section)
      else ret None
  | inr text => ret (Some text)
  end.

(** The block every setter call is followed by:
    [if (0 != r) { if (EMC_DEBUG & EMC_DEBUG_CONFIG) rcs_print_error(msg);
    return -1; }] *)
Definition bad_return (r : Z) (msg : string) : M unit :=
  if negb (0 =? r) then
    (if negb (Z.land (EMC_DEBUG env) (EMC_DEBUG_CONFIG env) =? 0)
     then tell (rcs_print_error (msg ++ newline))
     else ret tt) ;;
    return_ (-1)
  else ret tt.

Definition jointString (joint : Z) : string :=
  sprintf "JOINT_%d" [arg_d joint].

Definition loadJoint (joint : Z) (jointIniFile : EmcIniFile) : M Z :=
  let jointString := jointString joint in
  let jointIniFile := EnableExceptions jointIniFile [ERR_CONVERSION] in
  try_catch (
    (* set joint type *)
    jointType <- Find_jointType jointIniFile EMC_JOINT_LINEAR
                   "TYPE" jointString ;;
    r <- invoke (emcJointSetJoint joint jointType) ;;
    bad_return r "bad return from emcJointSetJoint" ;;
    (* set units *)
    units <- match jointType with
             | EMC_JOINT_LINEAR =>
                 FindLinearUnits jointIniFile (emcTrajGetLinearUnits env)
                   "UNITS" jointString
             | _ =>
                 FindAngularUnits jointIniFile (emcTrajGetAngularUnits env)
                   "UNITS" jointString
             end ;;
    r <- invoke (emcJointSetUnits joint units) ;;
    bad_return r "bad return from emcJointSetUnits" ;;
    (* set backlash *)
    backlash <- Find_double jointIniFile 0%float "BACKLASH" jointString ;;
    r <- invoke (emcJointSetBacklash joint backlash) ;;
    bad_return r "bad return from emcJointSetBacklash" ;;
    (* set min position limit *)
    limit <- Find_double jointIniFile (-1e99)%float
               "MIN_LIMIT" jointString ;;
    r <- invoke (emcJointSetMinPositionLimit joint limit) ;;
    bad_return r "bad return from emcJointSetMinPositionLimit" ;;
    (* set max position limit *)
    limit <- Find_double jointIniFile 1e99%float "MAX_LIMIT" jointString ;;
    r <- invoke (emcJointSetMaxPositionLimit joint limit) ;;
    bad_return r "bad return from emcJointSetMaxPositionLimit" ;;
    (* set following error limit (at max speed) *)
    ferror <- Find_double jointIniFile 1%float "FERROR" jointString ;;
    r <- invoke (emcJointSetFerror joint ferror) ;;
    bad_return r "bad return from emcJointSetFerror" ;;
    (* do MIN_FERROR, if it's there. If not, use value of maxFerror *)
    ferror <- Find_double jointIniFile ferror "MIN_FERROR" jointString ;;
    r <- invoke (emcJointSetMinFerror joint ferror) ;;
    bad_return r "bad return from emcJointSetMinFerror" ;;
    (* set homing parameters *)
    home <- Find_double jointIniFile 0%float "HOME" jointString ;;
    offset <- Find_double jointIniFile 0%float "HOME_OFFSET" jointString ;;
    search_vel <- Find_double jointIniFile 0%float
                    "HOME_SEARCH_VEL" jointString ;;
    latch_vel <- Find_double jointIniFile 0%float
                   "HOME_LATCH_VEL" jointString ;;
    home_vel <- Find_double jointIniFile (-1)%float
                  "HOME_VEL" jointString ;;
    is_shared <- Find_bool jointIniFile false
                   "HOME_IS_SHARED" jointString ;;
    use_index <- Find_bool jointIniFile false
                   "HOME_USE_INDEX" jointString ;;
    ignore_limits <- Find_bool jointIniFile false
                       "HOME_IGNORE_LIMITS" jointString ;;
    sequence <- Find_int jointIniFile (-1) "HOME_SEQUENCE" jointString ;;
    volatile_home <- Find_int jointIniFile 0 "VOLATILE_HOME" jointString ;;
    (* issue NML message to set all params *)
    r <- invoke (emcJointSetHomingParams joint home offset home_vel
                   search_vel latch_vel
                   (Z.b2z use_index) (Z.b2z ignore_limits)
                   (Z.b2z is_shared) sequence volatile_home) ;;
    bad_return r "bad return from emcJointSetHomingParams" ;;
    (* set maximum velocity *)
    maxVelocity <- Find_double jointIniFile (DEFAULT_JOINT_MAX_VELOCITY env)
                     "MAX_VELOCITY" jointString ;;
    r <- invoke (emcJointSetMaxVelocity joint maxVelocity) ;;
    bad_return r "bad return from emcJointSetMaxVelocity" ;;
    maxAcceleration <- Find_double jointIniFile
                         (DEFAULT_JOINT_MAX_ACCELERATION env)
                         "MAX_ACCELERATION" jointString ;;
    r <- invoke (emcJointSetMaxAcceleration joint maxAcceleration) ;;
    bad_return r "bad return from emcJointSetMaxAcceleration" ;;
    comp_file_type <- Find_int jointIniFile 0
                        "COMP_FILE_TYPE" jointString ;;
    inistring <- Find_string jointIniFile "COMP_FILE" jointString ;;
    match inistring with
    | Some file =>
        r <- invoke (emcJointLoadComp joint file comp_file_type) ;;
        bad_return r "bad return from emcJointLoadComp"
    | None => ret tt
    end
  ) (fun e => tell (Exception_Print e) ;; return_ (-1)) ;;
  (* lastly, activate joint *)
  invoke (emcJointActivate joint) ;;
  return_ 0.

(** Modelled from the spec: "open the configuration document"; the
    file object is constructed with the error mode given and
    [Open(filename)] binds it to the document, if there is one. *)
Definition Open (mask : list ErrorCode) (filename : string)
  : option EmcIniFile :=
  match files env filename with
  | Some d => Some (mkIniFile mask d)
  | None => None
  end.

Definition iniJoint (joint : Z) (filename : string) : M Z :=
  match Open [ERR_TAG_NOT_FOUND; ERR_SECTION_NOT_FOUND; ERR_CONVERSION]
             filename with
  | None => return_ (-1)
  | Some jointIniFile =>
      axes <- try_catch
                (Find_int jointIniFile (indeterminate env) "AXES" "TRAJ")
                (fun e => tell (Exception_Print e) ;; return_ (-1)) ;;
      (if (joint <? 0) || (joint >=? axes)
       then (* requested joint exceeds machine axes *) return_ (-1)
       else ret tt) ;;
      (* load its values *)
      r <- call_function (loadJoint joint jointIniFile) ;;
      (if negb (0 =? r) then return_ (-1) else ret tt) ;;
      return_ 0
  end.

End Loader.

(** ** Reading a run *)

Definition outcome_of {A C : Type} (run : outcome A * C * list event)
  : outcome A := fst (fst run).

Definition events_of {A C : Type} (run : outcome A * C * list event)
  : list event := snd run.

(** The controller functions by name. *)
Inductive callee : Type :=
| SetJoint | SetUnits | SetBacklash | SetMinPositionLimit
| SetMaxPositionLimit | SetFerror | SetMinFerror | SetHomingParams
| SetMaxVelocity | SetMaxAcceleration | LoadComp | Activate.

Definition callee_of (c : call) : callee :=
  match c with
  | emcJointSetJoint _ _ => SetJoint
  | emcJointSetUnits _ _ => SetUnits
  | emcJointSetBacklash _ _ => SetBacklash
  | emcJointSetMinPositionLimit _ _ => SetMinPositionLimit
  | emcJointSetMaxPositionLimit _ _ => SetMaxPositionLimit
  | emcJointSetFerror _ _ => SetFerror
  | emcJointSetMinFerror _ _ => SetMinFerror
  | emcJointSetHomingParams _ _ _ _ _ _ _ _ _ _ _ => SetHomingParams
  | emcJointSetMaxVelocity _ _ => SetMaxVelocity
  | emcJointSetMaxAcceleration _ _ => SetMaxAcceleration
  | emcJointLoadComp _ _ _ => LoadComp
  | emcJointActivate _ => Activate
  end.

(** The controller calls among the events of a run, oldest first. *)
Fixpoint calls (evs : list event) : list call :=
  match evs with
  | [] => []
  | Call c _ :: evs' => c :: calls evs'
  | _ :: evs' => calls evs'
  end.

Definition callees (evs : list event) : list callee :=
  map callee_of (calls evs).

(** The order the specification fixes; [comp] tells whether a
    compensation-file path is present. *)
Definition call_order (comp : bool) : list callee :=
  ([SetJoint; SetUnits; SetBacklash; SetMinPositionLimit;
    SetMaxPositionLimit; SetFerror; SetMinFerror; SetHomingParams;
    SetMaxVelocity; SetMaxAcceleration]
   ++ (if comp then [LoadComp] else []) ++ [Activate])%list.

(** A key of the document is present when the raw lookup finds text. *)
Definition present (d : document) (tag section : string) : bool :=
  match lookup d tag section with
  | inr _ => true
  | inl _ => false
  end.

(** Was [emcJointActivate] called? *)
Definition is_activate (c : call) : bool :=
  match c with
  | emcJointActivate _ => true
  | _ => false
  end.

Definition activated (evs : list event) : bool :=
  existsb is_activate (calls evs).

(** Every setter in front of the activation returned 0. *)
Fixpoint setters_accepted (evs : list event) : Prop :=
  match evs with
  | [] => True
  | Call c r :: evs' =>
      (if is_activate c then True else r = 0) /\ setters_accepted evs'
  | _ :: evs' => setters_accepted evs'
  end.

(** No lookup raised: no exception was caught and printed. *)
Fixpoint nothing_raised (evs : list event) : Prop :=
  match evs with
  | [] => True
  | Exception_Print _ :: _ => False
  | _ :: evs' => nothing_raised evs'
  end.

(** The value a typed lookup leaves in its out-parameter when it does
    not raise: the converted text of a present key, the previous content
    [result] for an absent one. *)
Definition resolved {A : Type} (conv : string -> option A)
    (d : document) (tag section : string) (result v : A) : Prop :=
  match lookup d tag section with
  | inr text => conv text = Some v
  | inl _ => v = result
  end.

Section Logic.

Variable env : Environment.

(** Weakest precondition of a statement that starts after the events
    [pre]: [Q] holds of its outcome, the controller and all events so
    far. *)
Definition wp {A : Type} (m : M env A) (c : Controller env)
    (pre : list event)
    (Q : outcome A -> Controller env -> list event -> Prop) : Prop :=
  Q (fst (fst (m c))) (snd (fst (m c))) (pre ++ snd (m c))%list.

Definition wp_k {A B : Type} (k : A -> M env B)
    (Q : outcome B -> Controller env -> list event -> Prop)
  : outcome A -> Controller env -> list event -> Prop :=
  fun o c l =>
    match o with
    | Normal a => wp (k a) c l Q
    | Return r => Q (Return r) c l
    | Throw e => Q (Throw e) c l
    end.

Definition wp_handler {A : Type} (h : Exception -> M env A)
    (Q : outcome A -> Controller env -> list event -> Prop)
  : outcome A -> Controller env -> list event -> Prop :=
  fun o c l =>
    match o with
    | Throw e => wp (h e) c l Q
    | other => Q other c l
    end.

End Logic.

(** ** The precision rule in the words of the specification *)

(** Does the literal contain a decimal point? *)
Definition has_point (s : string) : bool :=
  existsb (fun c => Ascii.eqb c ".") (list_ascii_of_string s).

(** The text that follows the first decimal point. *)
Fixpoint after_first_point (s : string) : string :=
  match s with
  | EmptyString => EmptyString
  | String c s' => if Ascii.eqb c "." then s' else after_first_point s'
  end.

(** The length of the run of decimal digits a text starts with. *)
Fixpoint digit_run (s : string) : nat :=
  match s with
  | EmptyString => O
  | String c s' => if isdigit c then S (digit_run s') else O
  end.

Definition inferPrecision (literal : string) : Z :=
  if has_point literal
  then Z.max 3 (Z.of_nat (digit_run (after_first_point literal)))
  else 3.

(** ** The loader in the words of the specification *)

(** The unit-aware lookup, its conversion and the trajectory-level
    default that go with a joint type. *)
Definition units_lookup (t : EmcJointType) : conversion :=
  match t with
  | EMC_JOINT_LINEAR => AsLinearUnits
  | EMC_JOINT_ANGULAR => AsAngularUnits
  end.

Definition units_conv (env : Environment) (t : EmcJointType)
  : string -> option float :=
  match t with
  | EMC_JOINT_LINEAR => conv_linear env
  | EMC_JOINT_ANGULAR => conv_angular env
  end.

Definition units_default (env : Environment) (t : EmcJointType) : float :=
  match t with
  | EMC_JOINT_LINEAR => emcTrajGetLinearUnits env
  | EMC_JOINT_ANGULAR => emcTrajGetAngularUnits env
  end.

(** The number of calls of [emcJointSetHomingParams] in a run. *)
Definition is_homing (c : call) : bool :=
  match c with
  | emcJointSetHomingParams _ _ _ _ _ _ _ _ _ _ _ => true
  | _ => false
  end.

Definition homing_calls (evs : list event) : nat :=
  List.length (filter is_homing (calls evs)).

(** The lookups of the homing group, in the order the code makes
    them. *)
Definition homing_lookups (js : string) : list event :=
  [ Lookup AsDouble "HOME" js;
    Lookup AsDouble "HOME_OFFSET" js;
    Lookup AsDouble "HOME_SEARCH_VEL" js;
    Lookup AsDouble "HOME_LATCH_VEL" js;
    Lookup AsDouble "HOME_VEL" js;
    Lookup AsBool "HOME_IS_SHARED" js;
    Lookup AsBool "HOME_USE_INDEX" js;
    Lookup AsBool "HOME_IGNORE_LIMITS" js;
    Lookup AsInt "HOME_SEQUENCE" js;
    Lookup AsInt "VOLATILE_HOME" js ].

(** The calls of a load that meets no key of its joint: every setter
    with the documented default, then the activation. *)
Definition default_calls (env : Environment) (joint : Z) : list call :=
  [ emcJointSetJoint joint EMC_JOINT_LINEAR;
    emcJointSetUnits joint (emcTrajGetLinearUnits env);
    emcJointSetBacklash joint 0%float;
    emcJointSetMinPositionLimit joint (-1e99)%float;
    emcJointSetMaxPositionLimit joint 1e99%float;
    emcJointSetFerror joint 1%float;
    emcJointSetMinFerror joint 1%float;
    emcJointSetHomingParams joint 0%float 0%float (-1)%float 0%float 0%float
      0 0 0 (-1) 0;
    emcJointSetMaxVelocity joint (DEFAULT_JOINT_MAX_VELOCITY env);
    emcJointSetMaxAcceleration joint (DEFAULT_JOINT_MAX_ACCELERATION env);
    emcJointActivate joint ].

(** The per-unit keys with the type each value is expected to have;
    the type of [UNITS] goes with the joint type. *)
Definition schema (t : EmcJointType) : list (string * conversion) :=
  [ ("TYPE", AsJointType); ("UNITS", units_lookup t);
    ("BACKLASH", AsDouble); ("MIN_LIMIT", AsDouble); ("MAX_LIMIT", AsDouble);
    ("FERROR", AsDouble); ("MIN_FERROR", AsDouble);
    ("HOME", AsDouble); ("HOME_OFFSET", AsDouble);
    ("HOME_SEARCH_VEL", AsDouble); ("HOME_LATCH_VEL", AsDouble);
    ("HOME_VEL", AsDouble); ("HOME_IS_SHARED", AsBool);
    ("HOME_USE_INDEX", AsBool); ("HOME_IGNORE_LIMITS", AsBool);
    ("HOME_SEQUENCE", AsInt); ("VOLATILE_HOME", AsInt);
    ("MAX_VELOCITY", AsDouble); ("MAX_ACCELERATION", AsDouble);
    ("COMP_FILE_TYPE", AsInt); ("COMP_FILE", AsString) ].

Definition is_some {A : Type} (o : option A) : bool :=
  match o with
  | Some _ => true
  | None => false
  end.

(** Can [text] be converted to the type [how] expects? *)
Definition converts (env : Environment) (how : conversion) (text : string)
  : bool :=
  match how with
  | AsJointType => is_some (conv_jointType env text)
  | AsDouble => is_some (conv_double env text)
  | AsBool => is_some (conv_bool env text)
  | AsInt => is_some (conv_int env text)
  | AsLinearUnits => is_some (conv_linear env text)
  | AsAngularUnits => is_some (conv_angular env text)
  | AsString => true
  end.

(** A key is malformed when it is present and its text does not
    convert. *)
Definition malformed (env : Environment) (d : document) (js : string)
    (key : string * conversion) : bool :=
  match lookup d (fst key) js with
  | inr text => negb (converts env (snd key) text)
  | inl _ => false
  end.

(** The joint type the document gives the section [js]. *)
Definition resolved_type (env : Environment) (d : document) (js : string)
  : EmcJointType :=
  match lookup d "TYPE" js with
  | inr text =>
      match conv_jointType env text with
      | Some t => t
      | None => EMC_JOINT_LINEAR
      end
  | inl _ => EMC_JOINT_LINEAR
  end.

Definition some_malformed (env : Environment) (d : document) (js : string)
  : bool :=
  existsb (malformed env d js) (schema (resolved_type env d js)).

(** The total unit count: the value of the mandatory key [AXES] of the
    top-level section [TRAJ], if it is there and is a number. *)
Definition unit_count (env : Environment) (d : document) : option Z :=
  match lookup d "AXES" "TRAJ" with
  | inr text => conv_int env text
  | inl _ => None
  end.

(** The entry point as the specification words it: open error, then
    the mandatory unit count, then the range check, then the load. *)
Definition configureUnit (env : Environment) (index : Z)
    (documentPath : string) (c : Controller env)
  : outcome Z * Controller env * list event :=
  match files env documentPath with
  | None => (Return (-1), c, [])
  | Some d =>
      match lookup d "AXES" "TRAJ" with
      | inl err =>
          (Return (-1), c,
           [Lookup AsInt "AXES" "TRAJ";
            Exception_Print (mkException err "AXES" "TRAJ")])
      | inr text =>
          match conv_int env text with
          | None =>
              (Return (-1), c,
               [Lookup AsInt "AXES" "TRAJ";
                Exception_Print (mkException ERR_CONVERSION "AXES" "TRAJ")])
          | Some count =>
              if (index <? 0) || (index >=? count)
              then (Return (-1), c, [Lookup AsInt "AXES" "TRAJ"])
              else
                let '(o, c', evs) :=
                  loadJoint env index
                    (mkIniFile [ERR_TAG_NOT_FOUND; ERR_SECTION_NOT_FOUND;
                                ERR_CONVERSION] d) c in
                (o, c', Lookup AsInt "AXES" "TRAJ" :: evs)
          end
      end
  end.

(** ** Sample surroundings to run the loader in *)

Module Sample.

(** A conversion given by its table. *)
Definition table {A : Type} (t : list (string * A)) (s : string)
  : option A := assoc s t.

(** The controller counts the calls it gets and returns -1 for those
    [reject] picks; [disk] holds the ini files. *)
Definition surroundings (reject : call -> bool)
    (disk : list (string * document)) : Environment :=
  mkEnvironment nat
    (fun n f => (if reject f then -1 else 0, S n))
    (table [("LINEAR", EMC_JOINT_LINEAR); ("ANGULAR", EMC_JOINT_ANGULAR)])
    (table [("0.5", 0.5%float); ("2", 2%float)])
    (table [("YES", true); ("NO", false)])
    (table [("0", 0); ("1", 1); ("2", 2); ("3", 3)])
    (table [("mm", 1%float); ("inch", 0.5%float)])
    (table [("deg", 1%float); ("rad", 2%float)])
    1%float 1%float 1.2%float 2.5%float 0 2
    (table disk) 7.

Definition accept_all (f : call) : bool := false.

(** A machine of three joints; joint 0 is left to the defaults,
    joint 1 is angular with a following error and a compensation
    file, joint 2 has a backlash that is no number. *)
Definition machine : document :=
  [ ("TRAJ", [("AXES", "3")]);
    ("JOINT_1", [("TYPE", "ANGULAR"); ("UNITS", "rad");
                 ("FERROR", "0.5"); ("HOME_USE_INDEX", "YES");
                 ("COMP_FILE", "comp.txt")]);
    ("JOINT_2", [("MIN_FERROR", "2"); ("BACKLASH", "0.5x")]) ].

Definition disk : list (string * document) :=
  [ ("machine.ini", machine);
    ("notraj.ini", [("JOINT_0", [])]);
    ("badaxes.ini", [("TRAJ", [("AXES", "three")])]) ].

End Sample.

(** ** Further readings of a run *)

(** The joint a controller call addresses. *)
Definition joint_of (c : call) : Z :=
  match c with
  | emcJointSetJoint j _
  | emcJointSetUnits j _
  | emcJointSetBacklash j _
  | emcJointSetMinPositionLimit j _
  | emcJointSetMaxPositionLimit j _
  | emcJointSetFerror j _
  | emcJointSetMinFerror j _
  | emcJointSetHomingParams j _ _ _ _ _ _ _ _ _ _
  | emcJointSetMaxVelocity j _
  | emcJointSetMaxAcceleration j _
  | emcJointLoadComp j _ _
  | emcJointActivate j => j
  end.

(** The reads of the ini file among the events of a run, oldest first:
    the lookup, the tag and the section of each. *)
Fixpoint lookups (evs : list event) : list (conversion * string * string) :=
  match evs with
  | [] => []
  | Lookup how tag section :: evs' => (how, tag, section) :: lookups evs'
  | _ :: evs' => lookups evs'
  end.

(** The reads that go through all keys of the schema in its order. *)
Definition schema_reads (t : EmcJointType) (js : string)
  : list (conversion * string * string) :=
  map (fun key => (snd key, fst key, js)) (schema t).

(** The text of a key, whatever the reason when there is none. *)
Definition raw (d : document) (tag section : string) : option string :=
  match lookup d tag section with
  | inr text => Some text
  | inl _ => None
  end.

(** The name the error message gives the controller function. *)
Definition setter_name (k : callee) : string :=
  match k with
  | SetJoint => "emcJointSetJoint"
  | SetUnits => "emcJointSetUnits"
  | SetBacklash => "emcJointSetBacklash"
  | SetMinPositionLimit => "emcJointSetMinPositionLimit"
  | SetMaxPositionLimit => "emcJointSetMaxPositionLimit"
  | SetFerror => "emcJointSetFerror"
  | SetMinFerror => "emcJointSetMinFerror"
  | SetHomingParams => "emcJointSetHomingParams"
  | SetMaxVelocity => "emcJointSetMaxVelocity"
  | SetMaxAcceleration => "emcJointSetMaxAcceleration"
  | LoadComp => "emcJointLoadComp"
  | Activate => "emcJointActivate"
  end.

(** Nothing was written to the error channel. *)
Fixpoint quiet (evs : list event) : Prop :=
  match evs with
  | [] => True
  | rcs_print_error _ :: _ => False
  | Exception_Print _ :: _ => False
  | _ :: evs' => quiet evs'
  end.

(** Is the configuration debug flag set, [EMC_DEBUG & EMC_DEBUG_CONFIG]? *)
Definition debugging (env : Environment) : bool :=
  negb (Z.land (EMC_DEBUG env) (EMC_DEBUG_CONFIG env) =? 0).

(** The controller returns 0 from every setter. *)
Definition accepting (env : Environment) : Prop :=
  forall c f, is_activate f = false -> fst (controller env c f) = 0.

(** The controller returns a value other than 0 from every call of the
    function [k]. *)
Definition rejects (env : Environment) (k : callee) : Prop :=
  forall c f, callee_of f = k -> fst (controller env c f) <> 0.

(** * Properties *)

Section Rules.

Variable env : Environment.

Local Abbreviation M := (M env).

Lemma wp_ret {A} (a : A) c pre Q :
  Q (Normal a) c pre -> wp env (ret env a) c pre Q.
Proof. unfold wp; simpl. now rewrite app_nil_r. Qed.

Lemma wp_return_ {A} r c pre (Q : outcome A -> _ -> _ -> Prop) :
  Q (Return r) c pre -> wp env (return_ env r) c pre Q.
Proof. unfold wp; simpl. now rewrite app_nil_r. Qed.

Lemma wp_throw {A} e c pre (Q : outcome A -> _ -> _ -> Prop) :
  Q (Throw e) c pre -> wp env (throw env e) c pre Q.
Proof. unfold wp; simpl. now rewrite app_nil_r. Qed.

Lemma wp_tell e c pre Q :
  Q (Normal tt) c (pre ++ [e])%list -> wp env (tell env e) c pre Q.
Proof. unfold wp; simpl. auto. Qed.

Lemma wp_bind {A B} (m : M A) (k : A -> M B) c pre Q :
  wp env m c pre (wp_k env k Q) -> wp env (bind env m k) c pre Q.
Proof.
  unfold wp_k, wp, bind.
  destruct (m c) as [[[a | r | e] c1] l1]; simpl; auto.
  destruct (k a c1) as [[o c2] l2]; simpl.
  now rewrite app_assoc.
Qed.

Lemma wp_try_catch {A} (body : M A) h c pre Q :
  wp env body c pre (wp_handler env h Q) ->
  wp env (try_catch env body h) c pre Q.
Proof.
  unfold wp_handler, wp, try_catch.
  destruct (body c) as [[[a | r | e] c1] l1]; simpl; auto.
  destruct (h e c1) as [[o c2] l2]; simpl.
  now rewrite app_assoc.
Qed.

Lemma wp_call_function (m : M Z) c pre Q :
  wp env m c pre
     (fun o c1 l1 =>
        match o with
        | Return r => Q (Normal r) c1 l1
        | other => Q other c1 l1
        end) ->
  wp env (call_function env m) c pre Q.
Proof.
  unfold wp, call_function.
  destruct (m c) as [[[a | r | e] c1] l1]; simpl; auto.
Qed.

Lemma lookup_absent d tag sec err :
  lookup d tag sec = inl err ->
  err = ERR_SECTION_NOT_FOUND \/ err = ERR_TAG_NOT_FOUND.
Proof.
  unfold lookup. destruct (assoc sec d) as [lines |].
  - destruct (assoc tag lines); intros H; inversion H; auto.
  - intros H; inversion H; auto.
Qed.

Lemma wp_invoke f c pre Q :
  (forall r c', controller env c f = (r, c') ->
                Q (Normal r) c' (pre ++ [Call f r])%list) ->
  wp env (invoke env f) c pre Q.
Proof.
  unfold wp, invoke. intros H.
  destruct (controller env c f) as [r c'] eqn:E. simpl. auto.
Qed.

(** A typed lookup in a file whose error mode is [ERR_CONVERSION]
    alone, as [loadJoint] sets it: it raises on a present value that
    does not convert and resolves the value otherwise. *)
Lemma wp_Find_as {A} how (conv : string -> option A) f result tag sec
    c pre Q :
  (forall text, lookup (doc f) tag sec = inr text -> conv text = None ->
     Q (Throw (mkException ERR_CONVERSION tag sec)) c
       (pre ++ [Lookup how tag sec])%list) ->
  (forall v, resolved conv (doc f) tag sec result v ->
     Q (Normal v) c (pre ++ [Lookup how tag sec])%list) ->
  wp env (Find_as env how conv (EnableExceptions f [ERR_CONVERSION])
            result tag sec) c pre Q.
Proof.
  intros Hthrow Hok. unfold Find_as.
  apply wp_bind, wp_tell. unfold wp_k, resolved in *. simpl doc.
  destruct (lookup (doc f) tag sec) as [err | text] eqn:E.
  - destruct (lookup_absent _ _ _ _ E) as [-> | ->]; simpl;
      apply wp_ret, Hok; reflexivity.
  - destruct (conv text) as [v |] eqn:Ec.
    + apply wp_ret, Hok. reflexivity.
    + simpl. apply wp_throw. eapply Hthrow; eauto.
Qed.

Lemma wp_Find_string f tag sec c pre Q :
  (forall text, lookup (doc f) tag sec = inr text ->
     Q (Normal (Some text)) c (pre ++ [Lookup AsString tag sec])%list) ->
  (forall err, lookup (doc f) tag sec = inl err ->
     Q (Normal None) c (pre ++ [Lookup AsString tag sec])%list) ->
  wp env (Find_string env (EnableExceptions f [ERR_CONVERSION]) tag sec)
     c pre Q.
Proof.
  intros Hsome Hnone. unfold Find_string.
  apply wp_bind, wp_tell. unfold wp_k. simpl doc.
  destruct (lookup (doc f) tag sec) as [err | text] eqn:E.
  - destruct (lookup_absent _ _ _ _ E) as [-> | ->]; simpl;
      eapply wp_ret, Hnone; reflexivity.
  - eapply wp_ret, Hsome; reflexivity.
Qed.

Lemma wp_bad_return r msg c pre Q :
  (r <> 0 -> Q (Return (-1)) c pre) ->
  (r <> 0 ->
   Q (Return (-1)) c (pre ++ [rcs_print_error (msg ++ newline)])%list) ->
  (r = 0 -> Q (Normal tt) c pre) ->
  wp env (bad_return env r msg) c pre Q.
Proof.
  intros H1 H2 H3. unfold bad_return.
  destruct (Z.eqb_spec 0 r) as [E | E]; simpl.
  - apply wp_ret, H3. auto.
  - assert (r <> 0) by congruence.
    destruct (Z.land _ _ =? 0); simpl; apply wp_bind.
    + apply wp_ret. simpl. apply wp_return_. auto.
    + apply wp_tell. simpl. apply wp_return_. auto.
Qed.

Lemma wp_run {A} (m : M A) c (Q : outcome A -> _ -> _ -> Prop) :
  wp env m c [] Q ->
  Q (outcome_of (m c)) (snd (fst (m c))) (events_of (m c)).
Proof. unfold wp. simpl. auto. Qed.

End Rules.

(** Symbolic execution of a statement, one construct at a time. *)
Ltac wp_step :=
  lazymatch goal with
  | |- wp _ (bind _ _ _) _ _ _ => apply wp_bind
  | |- wp _ (try_catch _ _ _) _ _ _ => apply wp_try_catch
  | |- wp _ (call_function _ _) _ _ _ => apply wp_call_function
  | |- wp _ (ret _ _) _ _ _ => apply wp_ret
  | |- wp _ (return_ _ _) _ _ _ => apply wp_return_
  | |- wp _ (tell _ _) _ _ _ => apply wp_tell
  | |- wp _ (invoke _ _) _ _ _ =>
      let r := fresh "r" in
      let c := fresh "c" in
      apply wp_invoke; intros r c _
  | |- wp _ (Find_as _ _ _ _ _ _ _) _ _ _ =>
      let v := fresh "v" in
      let Hv := fresh "Hv" in
      let text := fresh "text" in
      let Hp := fresh "Hpresent" in
      let Hm := fresh "Hmalformed" in
      apply wp_Find_as; [intros text Hp Hm | intros v Hv]
  | |- wp _ (Find_string _ _ _ _) _ _ _ =>
      let text := fresh "text" in
      let err := fresh "err" in
      let Hp := fresh "Hcomp" in
      apply wp_Find_string; [intros text Hp | intros err Hp]
  | |- wp _ (bad_return _ _ _) _ _ _ =>
      let H := fresh "Hrejected" in
      apply wp_bad_return; [intros H | intros H | intros ->]
  | |- wp _ (match ?x with _ => _ end) _ _ _ => destruct x
  end; cbn [wp_k wp_handler app].

(** Turn a goal about the outcome and the events of a run of
    [loadJoint] into the weakest precondition of its body. *)
Ltac wp_start :=
  cbv zeta;
  match goal with
  | |- context [loadJoint ?env ?joint ?ini ?c] =>
      pattern (outcome_of (loadJoint env joint ini c)),
              (events_of (loadJoint env joint ini c));
      match goal with
      | |- ?P _ _ =>
          refine (wp_run env (loadJoint env joint ini) c
                    (fun o _ evs => P o evs) _)
      end;
      cbv beta
  end.

(** Run [loadJoint] to each place where it can return; the section
    name is kept abstract as [js]. *)
Ltac run_loadJoint js :=
  unfold loadJoint, Find_jointType, Find_double, Find_bool, Find_int,
    FindLinearUnits, FindAngularUnits;
  cbv zeta;
  match goal with
  | |- context [jointString ?joint] => generalize (jointString joint)
  end;
  intros js;
  repeat wp_step.

(** Compute the reading of a literal event list. *)
Ltac read_events :=
  cbv [events_of outcome_of callees calls map callee_of call_order app
       activated is_activate existsb orb setters_accepted nothing_raised
       removelast fst snd].

(** ** The float-precision helpers *)

Section Precision.

Lemma find_point_spec s :
  find_point s =
  if has_point s then Some (after_first_point s) else None.
Proof.
  unfold has_point.
  induction s as [| ch s IH];
    cbn [find_point after_first_point existsb list_ascii_of_string];
    [reflexivity |].
  destruct (Ascii.eqb ch "."); cbn [orb]; [reflexivity | exact IH].
Qed.

Lemma count_digits_spec s : forall prec,
  count_digits s prec = prec + Z.of_nat (digit_run s).
Proof.
  induction s as [| ch s IH]; intros prec; simpl.
  - lia.
  - destruct (isdigit ch); simpl; [rewrite IH |]; lia.
Qed.

Lemma iniGetFloatPrec_inferPrecision s :
  iniGetFloatPrec s = inferPrecision s.
Proof.
  unfold iniGetFloatPrec, inferPrecision, INIFILE_MIN_FLOAT_PRECISION.
  rewrite find_point_spec.
  destruct (has_point s); [| reflexivity].
  cbv zeta. rewrite count_digits_spec.
  destruct (Z.gtb_spec (0 + Z.of_nat (digit_run (after_first_point s))) 3);
    lia.
Qed.





End Precision.

(** C8. For every string [s], [iniGetFloatPrec s] is the minimum
    precision 3 when [s] has no decimal point (the empty string
    included), and otherwise the larger of 3 and the number of decimal
    digits that follow the first point up to the first non-digit or the
    end of the string; the four sample values of the specification
    hold. *)
Theorem iniGetFloatPrec_correct :
  (forall s, iniGetFloatPrec s = inferPrecision s) /\
  (forall s, has_point s = false -> iniGetFloatPrec s = 3) /\
  (forall s, has_point s = true ->
     iniGetFloatPrec s
     = Z.max 3 (Z.of_nat (digit_run (after_first_point s)))) /\
  iniGetFloatPrec "1.2345" = 4 /\
  iniGetFloatPrec "7" = 3 /\
  iniGetFloatPrec "0.12" = 3 /\
  iniGetFloatPrec "" = 3.
Proof.
  split; [exact iniGetFloatPrec_inferPrecision |].
  split; [| split].
  - intros s H. rewrite iniGetFloatPrec_inferPrecision.
    unfold inferPrecision. now rewrite H.
  - intros s H. rewrite iniGetFloatPrec_inferPrecision.
    unfold inferPrecision. now rewrite H.
  - repeat split; reflexivity.
Qed.

(** The pair the specification formats: the digits of the first number
    alone set the precision, here two of them, raised to the minimum. *)
Example iniFormatFloat2_pair :
  iniFormatFloat2 "BAR" "1.23 9.1" = (0, "BAR = %.3f %.3f" ++ newline).
Proof. reflexivity. Qed.





(** ** The order of the controller calls *)

Section Order.

Variable env : Environment.

Lemma loadJoint_outcome joint ini c :
  outcome_of (loadJoint env joint ini c) = Return 0 \/
  outcome_of (loadJoint env joint ini c) = Return (-1).
Proof.
  wp_start.
  run_loadJoint js; auto.
Qed.

End Order.

Ltac rewrite_comp :=
  unfold present;
  match goal with
  | H : lookup _ "COMP_FILE" _ = _ |- _ => rewrite H
  | |- _ => destruct (lookup _ "COMP_FILE" _)
  end.

Ltac order_leaf :=
  refine (conj _ (conj _ (conj _ (conj _ (conj _ _)))));
  [ rewrite_comp; read_events; eexists; reflexivity
  | read_events; first [ discriminate | intros _; tauto ]
  | read_events; first [ reflexivity | tauto ]
  | read_events; first [ discriminate | reflexivity ]
  | read_events; first [ discriminate | reflexivity ]
  | first
      [ discriminate
      | intros _; rewrite_comp;
        match goal with
        | |- exists front r, ?L = _ /\ _ => exists (removelast L)
        end;
        read_events; eexists; split; reflexivity ] ].

(** Read off the trace: the controller calls are an initial part of the
    fixed order [emcJointSetJoint], [emcJointSetUnits],
    [emcJointSetBacklash], [emcJointSetMinPositionLimit],
    [emcJointSetMaxPositionLimit], [emcJointSetFerror],
    [emcJointSetMinFerror], [emcJointSetHomingParams],
    [emcJointSetMaxVelocity], [emcJointSetMaxAcceleration], then
    [emcJointLoadComp] only when [COMP_FILE] is present, then
    [emcJointActivate].  [emcJointActivate] is called exactly when no
    lookup raised and every setter before it returned 0, which is
    exactly when the load returns 0; in that case the calls are the
    whole order and the activation is the last event of the run. *)
Lemma loadJoint_trace_order env joint ini c :
  let run := loadJoint env joint ini c in
  let comp := present (doc ini) "COMP_FILE" (jointString joint) in
  (exists rest, call_order comp = (callees (events_of run) ++ rest)%list) /\
  (activated (events_of run) = true ->
   setters_accepted (events_of run) /\ nothing_raised (events_of run)) /\
  (setters_accepted (events_of run) /\ nothing_raised (events_of run) ->
   activated (events_of run) = true) /\
  (activated (events_of run) = true -> outcome_of run = Return 0) /\
  (outcome_of run = Return 0 -> activated (events_of run) = true) /\
  (outcome_of run = Return 0 ->
   exists front r,
     events_of run = (front ++ [Call (emcJointActivate joint) r])%list /\
     call_order comp = (callees front ++ [Activate])%list).
Proof.
  wp_start.
  run_loadJoint js.
  all: order_leaf.
Qed.

Ltac pick_event H tac :=
  cbv [In] in H;
  repeat (destruct H as [H | H];
          [ first [ discriminate H | injection H; intros; subst; tac ] | ]);
  contradiction.

(** C10. A controller call that returns a value other than 0 makes
    [loadJoint] return -1, unless the call is [emcJointActivate]: its
    result is not looked at, and the load returns 0 all the same. *)
Theorem loadJoint_ignores_activate_result env joint ini c f r :
  In (Call f r) (events_of (loadJoint env joint ini c)) ->
  r <> 0 ->
  outcome_of (loadJoint env joint ini c)
  = if is_activate f then Return 0 else Return (-1).
Proof.
  revert f r.
  wp_start.
  run_loadJoint js.
  all: intros ? ? Hin Hr;
    pick_event Hin ltac:(first [ congruence | reflexivity ]).
Qed.

Lemma loadJoint_ignores_activate_result_witness :
  let env := Sample.surroundings is_activate Sample.disk in
  let run := loadJoint env 1 (mkIniFile [] Sample.machine) 0%nat in
  In (Call (emcJointActivate 1) (-1)) (events_of run) /\
  outcome_of run = Return 0.
Proof.
  intros env run. split.
  - vm_compute. tauto.
  - apply (loadJoint_ignores_activate_result env 1
             (mkIniFile [] Sample.machine) 0%nat (emcJointActivate 1) (-1)).
    + vm_compute. tauto.
    + discriminate.
Defined.

(** ** The values handed to the controller *)

Section Resolved.

Context {A : Type} (conv : string -> option A) (d : document)
        (tag js : string).

Lemma resolved_absent result v :
  present d tag js = false -> resolved conv d tag js result v ->
  v = result.
Proof.
  unfold present, resolved.
  destruct (lookup d tag js); [auto | discriminate].
Qed.


Lemma resolved_functional result v w :
  resolved conv d tag js result v -> resolved conv d tag js result w ->
  v = w.
Proof.
  unfold resolved. destruct (lookup d tag js); congruence.
Qed.

End Resolved.

(** The events [i], [i+1], ... [j-1] of a literal list cut it in
    three. *)
Ltac cut_events i j :=
  match goal with
  | |- exists front back, ?L = _ /\ _ =>
      exists (firstn i L), (skipn j L)
  end;
  cbv [firstn skipn app].



(** Read off the trace: with [t] the resolved joint type, every
    [UNITS] lookup of the run is the unit-aware lookup of [t], the value
    [emcJointSetUnits] receives is the converted [UNITS] text under the
    conversion of [t] or, for an absent key, the trajectory-level units
    of [t], and [t] is the type handed to [emcJointSetJoint]; when that
    call returns 0 the [UNITS] lookup comes right after it. *)
Lemma loadJoint_units_trace env joint ini c t :
  resolved (conv_jointType env) (doc ini) "TYPE" (jointString joint)
           EMC_JOINT_LINEAR t ->
  (forall how,
     In (Lookup how "UNITS" (jointString joint))
        (events_of (loadJoint env joint ini c)) ->
     how = units_lookup t) /\
  (forall u r,
     In (Call (emcJointSetUnits joint u) r)
        (events_of (loadJoint env joint ini c)) ->
     resolved (units_conv env t) (doc ini) "UNITS" (jointString joint)
              (units_default env t) u) /\
  (forall t' r,
     In (Call (emcJointSetJoint joint t') r)
        (events_of (loadJoint env joint ini c)) ->
     t' = t /\
     (r = 0 ->
      exists back,
        events_of (loadJoint env joint ini c)
        = ([Lookup AsJointType "TYPE" (jointString joint);
            Call (emcJointSetJoint joint t) 0;
            Lookup (units_lookup t) "UNITS" (jointString joint)]
           ++ back)%list)).
Proof.
  revert t.
  wp_start.
  run_loadJoint js.
  all: intros t Ht;
    try match goal with
        | Hv : resolved _ _ "TYPE" _ _ ?v |- _ =>
            pose proof (resolved_functional _ _ _ _ _ _ _ Ht Hv); subst t
        end;
    refine (conj _ (conj _ _));
    [ intros ? Hin; pick_event Hin ltac:(reflexivity)
    | intros ? ? Hin; pick_event Hin ltac:(assumption)
    | intros ? ? Hin;
      pick_event Hin ltac:(
        split;
        [ reflexivity
        | first [ intros; congruence
                | intros _; eexists; reflexivity ] ]) ].
Qed.


(** Read off the trace: the homing call is made at most once and
    exactly once in a load that returns 0.  The call comes right after
    the ten lookups of the homing group, and each of its ten values is
    the one its own key resolved to, with the default of that key:
    0 for [HOME], [HOME_OFFSET], [HOME_SEARCH_VEL], [HOME_LATCH_VEL],
    -1 for [HOME_VEL], false for [HOME_IS_SHARED], [HOME_USE_INDEX],
    [HOME_IGNORE_LIMITS], -1 for [HOME_SEQUENCE] and 0 for
    [VOLATILE_HOME].  The controller has no other call that takes a
    homing value. *)
Lemma loadJoint_homing_trace env joint ini c :
  let run := loadJoint env joint ini c in
  let js := jointString joint in
  let d := doc ini in
  (homing_calls (events_of run) <= 1)%nat /\
  (outcome_of run = Return 0 -> homing_calls (events_of run) = 1%nat) /\
  (forall home offset home_vel search_vel latch_vel
          use_index ignore_limits is_shared sequence volatile_home r,
     In (Call (emcJointSetHomingParams joint home offset home_vel
                 search_vel latch_vel use_index ignore_limits is_shared
                 sequence volatile_home) r) (events_of run) ->
     exists front back,
       events_of run
       = (front ++ homing_lookups js
          ++ [Call (emcJointSetHomingParams joint home offset home_vel
                      search_vel latch_vel use_index ignore_limits
                      is_shared sequence volatile_home) r]
          ++ back)%list /\
       homing_calls front = 0%nat /\
       homing_calls back = 0%nat /\
       resolved (conv_double env) d "HOME" js 0%float home /\
       resolved (conv_double env) d "HOME_OFFSET" js 0%float offset /\
       resolved (conv_double env) d "HOME_SEARCH_VEL" js 0%float
                search_vel /\
       resolved (conv_double env) d "HOME_LATCH_VEL" js 0%float latch_vel /\
       resolved (conv_double env) d "HOME_VEL" js (-1)%float home_vel /\
       (exists b, resolved (conv_bool env) d "HOME_IS_SHARED" js false b /\
                  is_shared = Z.b2z b) /\
       (exists b, resolved (conv_bool env) d "HOME_USE_INDEX" js false b /\
                  use_index = Z.b2z b) /\
       (exists b,
          resolved (conv_bool env) d "HOME_IGNORE_LIMITS" js false b /\
          ignore_limits = Z.b2z b) /\
       resolved (conv_int env) d "HOME_SEQUENCE" js (-1) sequence /\
       resolved (conv_int env) d "VOLATILE_HOME" js 0 volatile_home).
Proof.
  wp_start.
  run_loadJoint js.
  all: refine (conj _ (conj _ _));
    [ cbv [homing_calls calls filter is_homing List.length]; lia
    | first [ discriminate | intros _; reflexivity ]
    | intros ? ? ? ? ? ? ? ? ? ? ? Hin;
      pick_event Hin ltac:(
        cut_events 14%nat 25%nat;
        cbv [homing_lookups app];
        refine (conj eq_refl (conj eq_refl (conj eq_refl _)));
        repeat match goal with |- _ /\ _ => split end;
        first [ assumption
              | eexists; split; [eassumption | reflexivity] ]) ].
Qed.

(** ** Defaults *)

(** C2. When the section of the joint holds none of the keys, the
    calls the controller receives are an initial part of
    [default_calls]: the setters with the documented defaults (LINEAR,
    the trajectory linear units, backlash 0, limits -1e99 and 1e99,
    both following errors 1, the homing defaults, the system-wide
    velocity and acceleration), no [emcJointLoadComp], then the
    activation.  No lookup raises, and when the controller accepts the
    setters the run makes all of these calls and returns 0. *)
Theorem loadJoint_defaults env joint ini c :
  (forall tag, present (doc ini) tag (jointString joint) = false) ->
  (exists rest,
     default_calls env joint
     = (calls (events_of (loadJoint env joint ini c)) ++ rest)%list) /\
  nothing_raised (events_of (loadJoint env joint ini c)) /\
  (setters_accepted (events_of (loadJoint env joint ini c)) ->
   calls (events_of (loadJoint env joint ini c)) = default_calls env joint /\
   outcome_of (loadJoint env joint ini c) = Return 0).
Proof.
  wp_start.
  run_loadJoint js.
  all: intros Hnone;
    first
      [ match goal with
        | H : lookup _ ?tag _ = inr _ |- _ =>
            pose proof (Hnone tag) as Hno; unfold present in Hno;
            rewrite H in Hno; discriminate Hno
        end
      | match goal with
        | H : resolved _ _ ?tag _ _ EMC_JOINT_ANGULAR |- _ =>
            apply (resolved_absent _ _ _ _ _ _ (Hnone tag)) in H;
            discriminate H
        end
      | repeat match goal with
               | H : resolved _ _ ?tag _ _ _ |- _ =>
                   apply (resolved_absent _ _ _ _ _ _ (Hnone tag)) in H;
                   subst
               end;
        refine (conj _ (conj _ _));
        [ read_events; eexists; reflexivity
        | read_events; exact I
        | read_events; first [ tauto | intros _; split; reflexivity ] ] ].
Qed.

Lemma loadJoint_defaults_witness :
  let env := Sample.surroundings Sample.accept_all Sample.disk in
  let run := loadJoint env 0 (mkIniFile [] Sample.machine) 0%nat in
  (forall tag, present Sample.machine tag (jointString 0) = false) /\
  setters_accepted (events_of run) /\
  calls (events_of run) = default_calls env 0 /\
  outcome_of run = Return 0.
Proof.
  intros env run.
  assert (Hnone : forall tag,
             present Sample.machine tag (jointString 0) = false)
    by reflexivity.
  assert (Hacc : setters_accepted (events_of run))
    by (vm_compute; tauto).
  split; [exact Hnone |]. split; [exact Hacc |].
  exact (proj2 (proj2 (loadJoint_defaults env 0
                         (mkIniFile [] Sample.machine) 0%nat Hnone)) Hacc).
Defined.

(** ** Malformed values *)

Section Malformed.

Variable env : Environment.
Variable d : document.
Variable js : string.

Lemma resolved_type_eq t :
  resolved (conv_jointType env) d "TYPE" js EMC_JOINT_LINEAR t ->
  resolved_type env d js = t.
Proof.
  unfold resolved, resolved_type.
  destruct (lookup d "TYPE" js); [congruence |].
  now intros ->.
Qed.

Lemma resolved_well_formed {A} tag how (conv : string -> option A) x v :
  (forall text, converts env how text = is_some (conv text)) ->
  resolved conv d tag js x v ->
  malformed env d js (tag, how) = false.
Proof.
  unfold resolved, malformed. cbn [fst snd]. intros Hhow Hv.
  destruct (lookup d tag js); [reflexivity |].
  now rewrite Hhow, Hv.
Qed.

Lemma text_well_formed tag :
  malformed env d js (tag, AsString) = false.
Proof.
  unfold malformed. cbn [fst snd].
  now destruct (lookup d tag js).
Qed.

Lemma unconverted_malformed {A} tag how (conv : string -> option A) text :
  (forall text, converts env how text = is_some (conv text)) ->
  lookup d tag js = inr text -> conv text = None ->
  malformed env d js (tag, how) = true.
Proof.
  unfold malformed. cbn [fst snd]. intros Hhow -> Hc.
  now rewrite Hhow, Hc.
Qed.

End Malformed.

(** The lookup that uses a conversion of the environment. *)
Ltac how_of conv :=
  lazymatch conv with
  | conv_jointType _ => constr:(AsJointType)
  | conv_double _ => constr:(AsDouble)
  | conv_bool _ => constr:(AsBool)
  | conv_int _ => constr:(AsInt)
  | conv_linear _ => constr:(AsLinearUnits)
  | conv_angular _ => constr:(AsAngularUnits)
  end.

Ltac type_known :=
  try match goal with
      | Hv : resolved (conv_jointType ?env) ?d "TYPE" ?js _ ?t |- _ =>
          rewrite (resolved_type_eq env d js t Hv) in *
      end.

(** The key whose lookup raised is malformed. *)
Ltac raised_key_malformed :=
  lazymatch goal with
  | Hp : lookup ?d ?tag ?js = inr ?text, Hm : ?conv ?text = None
    |- malformed ?env _ _ _ = true =>
      let how := how_of conv in
      exact (unconverted_malformed env d js tag how conv text
               (fun _ => eq_refl) Hp Hm)
  end.

Ltac malformed_leaf :=
  unfold some_malformed; type_known; split; intros Hsm;
  lazymatch goal with
  | Hp : lookup ?d ?tag ?js = inr ?text, Hm : ?conv ?text = None |- _ =>
      lazymatch type of Hsm with
      | _ = true =>
          split; [reflexivity |];
          split; [read_events; reflexivity |];
          intros _;
          match goal with
          | |- exists front tag how, ?L = _ /\ _ =>
              exists (removelast (removelast L))
          end;
          cbv [removelast];
          eexists; eexists; split; [reflexivity | raised_key_malformed]
      | ?E = false =>
          exfalso;
          let how := how_of conv in
          assert (Hex : E = true)
            by (apply existsb_exists; exists (tag, how);
                split;
                [ cbv [schema units_lookup In];
                  repeat (first [ left; reflexivity | right ])
                | raised_key_malformed ]);
          rewrite Hex in Hsm; discriminate Hsm
      end
  | Hr : _ <> 0 |- _ =>
      lazymatch type of Hsm with
      | _ = true =>
          split; [reflexivity |];
          split; [read_events; reflexivity |];
          intros Hacc; exfalso; revert Hacc; read_events; tauto
      | _ = false =>
          split; [read_events; exact I |];
          intros Hacc; exfalso; revert Hacc; read_events; tauto
      end
  | _ =>
      lazymatch type of Hsm with
      | _ = true =>
          exfalso;
          cbv [schema existsb units_lookup] in Hsm;
          repeat match goal with
                 | Hv : resolved ?conv ?d ?tag ?js _ _ |- _ =>
                     let how := how_of conv in
                     rewrite (resolved_well_formed _ d js tag how conv _ _
                                (fun _ => eq_refl) Hv) in Hsm;
                     clear Hv
                 end;
          rewrite text_well_formed in Hsm;
          discriminate Hsm
      | _ = false =>
          split; [read_events; exact I |];
          intros _; split; reflexivity
      end
  end.

(** C3. When a key of the joint's section is present with a text that
    does not convert to the type expected of it, [loadJoint] returns -1
    and never calls [emcJointActivate]; unless the controller rejected a
    setter before, the run ends with the lookup of a malformed key and
    the print of the conversion error raised for it, with no call
    after.  When no present key is malformed, whichever keys are absent,
    no lookup raises, and the load returns 0 and activates as long as
    the controller accepts the setters. *)
Theorem loadJoint_malformed_value env joint ini c :
  let run := loadJoint env joint ini c in
  let js := jointString joint in
  (some_malformed env (doc ini) js = true ->
   outcome_of run = Return (-1) /\
   activated (events_of run) = false /\
   (setters_accepted (events_of run) ->
    exists front tag how,
      events_of run
      = (front ++ [Lookup how tag js;
                   Exception_Print (mkException ERR_CONVERSION tag js)])%list /\
      malformed env (doc ini) js (tag, how) = true)) /\
  (some_malformed env (doc ini) js = false ->
   nothing_raised (events_of run) /\
   (setters_accepted (events_of run) ->
    outcome_of run = Return 0 /\ activated (events_of run) = true)).
Proof.
  wp_start.
  run_loadJoint js.
  all: malformed_leaf.
Qed.

Lemma loadJoint_malformed_value_witness :
  let env := Sample.surroundings Sample.accept_all Sample.disk in
  let bad := loadJoint env 2 (mkIniFile [] Sample.machine) 0%nat in
  let good := loadJoint env 0 (mkIniFile [] Sample.machine) 0%nat in
  (some_malformed env Sample.machine (jointString 2) = true /\
   outcome_of bad = Return (-1) /\ activated (events_of bad) = false) /\
  (some_malformed env Sample.machine (jointString 0) = false /\
   nothing_raised (events_of good)).
Proof.
  intros env bad good. split.
  - assert (Hsm : some_malformed env Sample.machine (jointString 2) = true)
      by reflexivity.
    split; [exact Hsm |].
    destruct (proj1 (loadJoint_malformed_value env 2
                       (mkIniFile [] Sample.machine) 0%nat) Hsm)
      as (Ho & Ha & _).
    split; assumption.
  - assert (Hsm : some_malformed env Sample.machine (jointString 0) = false)
      by reflexivity.
    split; [exact Hsm |].
    exact (proj1 (proj2 (loadJoint_malformed_value env 0
                           (mkIniFile [] Sample.machine) 0%nat) Hsm)).
Defined.

(** ** The entry point *)

Lemma iniJoint_refines env joint filename c :
  iniJoint env joint filename c = configureUnit env joint filename c.
Proof.
  unfold iniJoint, configureUnit, Open.
  destruct (files env filename) as [d |]; [| reflexivity].
  unfold bind at 1, try_catch, Find_int, Find_as, bind at 1, tell.
  cbn [doc].
  destruct (lookup d "AXES" "TRAJ") as [err | text] eqn:Hl.
  { destruct (lookup_absent _ _ _ _ Hl) as [-> | ->]; reflexivity. }
  destruct (conv_int env text) as [axes |]; [| reflexivity].
  cbn -[loadJoint Z.ltb Z.geb].
  destruct ((joint <? 0) || (joint >=? axes)); [reflexivity |].
  unfold bind, call_function, return_, ret.
  pose proof (loadJoint_outcome env joint
                (mkIniFile [ERR_TAG_NOT_FOUND; ERR_SECTION_NOT_FOUND;
                            ERR_CONVERSION] d) c) as Ho.
  unfold outcome_of in Ho.
  destruct (loadJoint env joint _ c) as [[o c'] evs].
  cbn [fst] in Ho. destruct Ho as [-> | ->]; cbn; now rewrite app_nil_r.
Qed.

(** C4. [iniJoint] does what [configureUnit] says.  It returns -1 with
    no event when the document cannot be opened.  Otherwise it looks up
    [AXES] in [TRAJ]; when the key is absent or is no number it prints
    the exception and returns -1, with no default taken and no
    controller call.  Otherwise, when the joint is negative or not below
    the count, it returns -1 having made no further lookup and no
    controller call.  Otherwise it runs [loadJoint] on the document and
    returns its result. *)
Theorem iniJoint_checks env joint filename c :
  let all := [ERR_TAG_NOT_FOUND; ERR_SECTION_NOT_FOUND; ERR_CONVERSION] in
  let axes := Lookup AsInt "AXES" "TRAJ" in
  iniJoint env joint filename c = configureUnit env joint filename c /\
  (files env filename = None ->
   iniJoint env joint filename c = (Return (-1), c, [])) /\
  (forall d,
     files env filename = Some d -> unit_count env d = None ->
     exists e,
       iniJoint env joint filename c
       = (Return (-1), c, [axes; Exception_Print e])) /\
  (forall d count,
     files env filename = Some d -> unit_count env d = Some count ->
     joint < 0 \/ joint >= count ->
     iniJoint env joint filename c = (Return (-1), c, [axes])) /\
  (forall d count,
     files env filename = Some d -> unit_count env d = Some count ->
     0 <= joint < count ->
     outcome_of (iniJoint env joint filename c)
     = outcome_of (loadJoint env joint (mkIniFile all d) c) /\
     events_of (iniJoint env joint filename c)
     = axes :: events_of (loadJoint env joint (mkIniFile all d) c)).
Proof.
  cbv zeta. split; [apply iniJoint_refines |].
  rewrite iniJoint_refines. unfold configureUnit, unit_count.
  split; [intros ->; reflexivity |].
  split; [| split].
  - intros d -> Hc.
    destruct (lookup d "AXES" "TRAJ") as [err | text].
    + eexists; reflexivity.
    + rewrite Hc. eexists; reflexivity.
  - intros d count -> Hc Hrange.
    destruct (lookup d "AXES" "TRAJ") as [err | text]; [discriminate |].
    rewrite Hc.
    replace ((joint <? 0) || (joint >=? count)) with true; [reflexivity |].
    symmetry. apply orb_true_iff. rewrite Z.ltb_lt, Z.geb_le. lia.
  - intros d count -> Hc Hrange.
    destruct (lookup d "AXES" "TRAJ") as [err | text]; [discriminate |].
    rewrite Hc.
    replace ((joint <? 0) || (joint >=? count)) with false.
    + destruct (loadJoint env joint _ c) as [[o c'] evs]. split; reflexivity.
    + symmetry. apply orb_false_iff.
      rewrite Z.ltb_ge, Z.geb_leb, Z.leb_gt. lia.
Qed.

Lemma iniJoint_checks_witness :
  let env := Sample.surroundings Sample.accept_all Sample.disk in
  iniJoint env 0 "missing.ini" 0%nat = (Return (-1), 0%nat, []) /\
  (exists e,
     iniJoint env 0 "notraj.ini" 0%nat
     = (Return (-1), 0%nat, [Lookup AsInt "AXES" "TRAJ"; Exception_Print e])) /\
  iniJoint env 3 "machine.ini" 0%nat
  = (Return (-1), 0%nat, [Lookup AsInt "AXES" "TRAJ"]) /\
  outcome_of (iniJoint env 1 "machine.ini" 0%nat)
  = outcome_of (loadJoint env 1
                  (mkIniFile [ERR_TAG_NOT_FOUND; ERR_SECTION_NOT_FOUND;
                              ERR_CONVERSION] Sample.machine) 0%nat).
Proof.
  intros env.
  split; [| split; [| split]].
  - exact (proj1 (proj2 (iniJoint_checks env 0 "missing.ini" 0%nat))
             eq_refl).
  - exact (proj1 (proj2 (proj2 (iniJoint_checks env 0 "notraj.ini" 0%nat)))
             [("JOINT_0", [])] eq_refl eq_refl).
  - apply (proj1 (proj2 (proj2 (proj2
             (iniJoint_checks env 3 "machine.ini" 0%nat))))
             Sample.machine 3 eq_refl eq_refl).
    right. lia.
  - apply (proj2 (proj2 (proj2 (proj2
             (iniJoint_checks env 1 "machine.ini" 0%nat))))
             Sample.machine 3 eq_refl eq_refl).
    lia.
Defined.

(** * Further properties *)

(** ** The float-precision helpers *)

Lemma digit_run_length s : (digit_run s <= String.length s)%nat.
Proof.
  induction s as [| ch s IH]; simpl; [lia |].
  destruct (isdigit ch); lia.
Qed.

Lemma after_first_point_length s :
  has_point s = true ->
  (S (String.length (after_first_point s)) <= String.length s)%nat.
Proof.
  unfold has_point.
  induction s as [| ch s IH];
    cbn [existsb list_ascii_of_string after_first_point String.length];
    [discriminate |].
  destruct (Ascii.eqb ch "."); cbn [orb]; [lia |].
  intros H. specialize (IH H). lia.
Qed.

(** X1. The precision [iniGetFloatPrec] returns is never below the
    minimum 3 and never above the larger of 3 and the number of
    characters behind the first one. *)
Theorem iniGetFloatPrec_bounds s :
  INIFILE_MIN_FLOAT_PRECISION <= iniGetFloatPrec s
  <= Z.max INIFILE_MIN_FLOAT_PRECISION (Z.of_nat (String.length s) - 1).
Proof.
  rewrite iniGetFloatPrec_inferPrecision.
  unfold inferPrecision, INIFILE_MIN_FLOAT_PRECISION.
  destruct (has_point s) eqn:Hp; [| lia].
  pose proof (after_first_point_length s Hp).
  pose proof (digit_run_length (after_first_point s)).
  lia.
Qed.

Lemma has_point_before pre s :
  has_point pre = false ->
  has_point (pre ++ String "." s) = true /\
  after_first_point (pre ++ String "." s) = s.
Proof.
  unfold has_point.
  induction pre as [| ch pre IH];
    cbn [existsb list_ascii_of_string after_first_point append].
  - intros _. split; reflexivity.
  - destruct (Ascii.eqb ch "."); cbn [orb]; [discriminate | exact IH].
Qed.

Lemma digit_run_all ds tail :
  forallb isdigit (list_ascii_of_string ds) = true ->
  digit_run tail = O ->
  digit_run (ds ++ tail) = String.length ds.
Proof.
  intros Hds Htail.
  induction ds as [| d ds IH]; simpl in *; [exact Htail |].
  apply andb_true_iff in Hds. destruct Hds as [-> Hds].
  now rewrite IH.
Qed.

(** X2. For a literal made of any text without a point, a point, a run
    of decimal digits and a rest that is empty or starts with another
    character, [iniGetFloatPrec] is the larger of 3 and the number of
    digits of the run: sign, integer part and what follows the fraction
    do not count. *)
Theorem iniGetFloatPrec_literal pre ds tail :
  has_point pre = false ->
  forallb isdigit (list_ascii_of_string ds) = true ->
  digit_run tail = O ->
  iniGetFloatPrec (pre ++ String "." (ds ++ tail))
  = Z.max 3 (Z.of_nat (String.length ds)).
Proof.
  intros Hpre Hds Htail.
  rewrite iniGetFloatPrec_inferPrecision. unfold inferPrecision.
  destruct (has_point_before pre (ds ++ tail) Hpre) as [-> ->].
  now rewrite digit_run_all.
Qed.

Lemma iniGetFloatPrec_literal_witness :
  has_point "-12" = false /\
  forallb isdigit (list_ascii_of_string "50625") = true /\
  digit_run " mm" = O /\
  iniGetFloatPrec "-12.50625 mm" = 5.
Proof.
  split; [reflexivity |]. split; [reflexivity |]. split; [reflexivity |].
  exact (iniGetFloatPrec_literal "-12" "50625" " mm"
           eq_refl eq_refl eq_refl).
Defined.

(** ** The section of a joint *)

Lemma decimal_inj n m : decimal n = decimal m -> n = m.
Proof.
  unfold decimal. intros H.
  apply DecimalZ.to_int_inj.
  assert (Hnil : forall z, Z.to_int z <> Decimal.Pos Decimal.Nil /\
                           Z.to_int z <> Decimal.Neg Decimal.Nil).
  { intros [| p | p]; simpl; split; try discriminate;
      intros [= E]; now apply (DecimalPos.Unsigned.to_uint_nonnil p). }
  destruct (Hnil n) as [Hn1 Hn2]. destruct (Hnil m) as [Hm1 Hm2].
  pose proof (NilZero.isi _ Hn1 Hn2) as En.
  pose proof (NilZero.isi _ Hm1 Hm2) as Em.
  rewrite H in En. congruence.
Qed.


(** ** The loader: what the calls carry *)

Lemma wp_bad_return_debug env r msg c pre Q :
  (r <> 0 -> debugging env = false -> Q (Return (-1)) c pre) ->
  (r <> 0 -> debugging env = true ->
   Q (Return (-1)) c (pre ++ [rcs_print_error (msg ++ newline)])%list) ->
  (r = 0 -> Q (Normal tt) c pre) ->
  wp env (bad_return env r msg) c pre Q.
Proof.
  intros H1 H2 H3. unfold bad_return. unfold debugging in *.
  destruct (Z.eqb_spec 0 r) as [E | E]; simpl.
  - apply wp_ret, H3. auto.
  - assert (r <> 0) by congruence.
    destruct (Z.land _ _ =? 0); simpl; apply wp_bind.
    + apply wp_ret. simpl. apply wp_return_. auto.
    + apply wp_tell. simpl. apply wp_return_. auto.
Qed.

(** Symbolic execution that keeps what the controller answered and
    whether the debug flag was set. *)
Ltac wp_step_full :=
  lazymatch goal with
  | |- wp _ (invoke _ _) _ _ _ =>
      let r := fresh "r" in
      let c := fresh "c" in
      let H := fresh "Hctl" in
      apply wp_invoke; intros r c H; cbn [wp_k wp_handler app]
  | |- wp _ (bad_return _ _ _) _ _ _ =>
      let H := fresh "Hrejected" in
      let Hd := fresh "Hdebug" in
      apply wp_bad_return_debug;
      [intros H Hd | intros H Hd | intros ->];
      cbn [wp_k wp_handler app]
  | |- _ => wp_step
  end.

Ltac run_loadJoint_full js :=
  unfold loadJoint, Find_jointType, Find_double, Find_bool, Find_int,
    FindLinearUnits, FindAngularUnits;
  cbv zeta;
  match goal with
  | |- context [jointString ?joint] => generalize (jointString joint)
  end;
  intros js;
  repeat wp_step_full.

Lemma loadJoint_own_joint env joint ini c :
  Forall (fun f => joint_of f = joint)
         (calls (events_of (loadJoint env joint ini c))) /\
  Forall (fun l => snd l = jointString joint)
         (lookups (events_of (loadJoint env joint ini c))).
Proof.
  wp_start.
  run_loadJoint js.
  all: split; cbv [calls lookups]; repeat constructor.
Qed.

(** X5. Every controller call [iniJoint] makes addresses the joint it
    was asked to load, and every key it reads is [AXES] of [TRAJ] or a
    key of that joint's own section. *)
Theorem iniJoint_touches_one_joint env joint filename c :
  Forall (fun f => joint_of f = joint)
         (calls (events_of (iniJoint env joint filename c))) /\
  Forall (fun l => l = (AsInt, "AXES", "TRAJ") \/
                   snd l = jointString joint)
         (lookups (events_of (iniJoint env joint filename c))).
Proof.
  rewrite iniJoint_refines. unfold configureUnit.
  destruct (files env filename) as [d |];
    [| split; constructor].
  destruct (lookup d "AXES" "TRAJ") as [err | text];
    [split; repeat constructor; now left |].
  destruct (conv_int env text) as [count |];
    [| split; repeat constructor; now left].
  destruct ((joint <? 0) || (joint >=? count));
    [split; repeat constructor; now left |].
  pose proof (loadJoint_own_joint env joint
                (mkIniFile [ERR_TAG_NOT_FOUND; ERR_SECTION_NOT_FOUND;
                            ERR_CONVERSION] d) c) as [Hc Hl].
  destruct (loadJoint env joint _ c) as [[o c'] evs].
  unfold events_of in *. cbn [snd calls lookups] in *.
  split; [exact Hc |].
  constructor; [now left |].
  eapply Forall_impl; [| exact Hl]. intros l Hs. now right.
Qed.

(** Read off the trace: each plain setter gets the value of its key:
    [emcJointSetBacklash] the converted [BACKLASH] or 0,
    [emcJointSetMinPositionLimit] the converted [MIN_LIMIT] or -1e99,
    [emcJointSetMaxPositionLimit] the converted [MAX_LIMIT] or 1e99,
    [emcJointSetFerror] the converted [FERROR] or 1,
    [emcJointSetMaxVelocity] the converted [MAX_VELOCITY] or
    [DEFAULT_JOINT_MAX_VELOCITY], and [emcJointSetMaxAcceleration] the
    converted [MAX_ACCELERATION] or [DEFAULT_JOINT_MAX_ACCELERATION]. *)
Lemma loadJoint_setter_trace env joint ini c :
  let evs := events_of (loadJoint env joint ini c) in
  let from := resolved (conv_double env) (doc ini) in
  let js := jointString joint in
  (forall v r, In (Call (emcJointSetBacklash joint v) r) evs ->
               from "BACKLASH" js 0%float v) /\
  (forall v r, In (Call (emcJointSetMinPositionLimit joint v) r) evs ->
               from "MIN_LIMIT" js (-1e99)%float v) /\
  (forall v r, In (Call (emcJointSetMaxPositionLimit joint v) r) evs ->
               from "MAX_LIMIT" js 1e99%float v) /\
  (forall v r, In (Call (emcJointSetFerror joint v) r) evs ->
               from "FERROR" js 1%float v) /\
  (forall v r, In (Call (emcJointSetMaxVelocity joint v) r) evs ->
               from "MAX_VELOCITY" js (DEFAULT_JOINT_MAX_VELOCITY env) v) /\
  (forall v r, In (Call (emcJointSetMaxAcceleration joint v) r) evs ->
               from "MAX_ACCELERATION" js
                    (DEFAULT_JOINT_MAX_ACCELERATION env) v).
Proof.
  wp_start.
  run_loadJoint js.
  all: repeat match goal with |- _ /\ _ => split end;
    intros ? ? Hin; pick_event Hin ltac:(assumption).
Qed.

(** X7. [emcJointLoadComp] is only ever called with the text of
    [COMP_FILE] as the file and with the converted [COMP_FILE_TYPE], or
    0 when that key is absent, as the type; and a load that returns 0
    with [COMP_FILE] present has made that call with result 0 right in
    front of the activation. *)
Theorem loadJoint_compensation env joint ini c :
  let run := loadJoint env joint ini c in
  let js := jointString joint in
  (forall file type r,
     In (Call (emcJointLoadComp joint file type) r) (events_of run) ->
     lookup (doc ini) "COMP_FILE" js = inr file /\
     resolved (conv_int env) (doc ini) "COMP_FILE_TYPE" js 0 type) /\
  (forall file,
     outcome_of run = Return 0 ->
     lookup (doc ini) "COMP_FILE" js = inr file ->
     exists front type r,
       events_of run
       = (front ++ [Call (emcJointLoadComp joint file type) 0;
                    Call (emcJointActivate joint) r])%list).
Proof.
  wp_start.
  run_loadJoint js.
  all: split;
    [ intros ? ? ? Hin; pick_event Hin ltac:(split; assumption)
    | intros ? Ho Hfile; first
        [ discriminate Ho
        | match goal with
          | H : lookup _ "COMP_FILE" _ = _ |- _ =>
              rewrite H in Hfile; first
                [ discriminate Hfile
                | injection Hfile as <-;
                  match goal with
                  | |- exists front type r, ?L = _ =>
                      exists (removelast (removelast L))
                  end;
                  cbv [removelast app]; eexists; eexists; reflexivity ]
          end ] ].
Qed.

(** ** The loader: how it fails *)

Ltac cut_tail n :=
  match goal with
  | |- exists front, _ /\ _ /\ (_ \/ _) =>
      match goal with
      | |- context [?L = (_ ++ _)%list] =>
          exists (firstn (List.length L - n) L)
      end
  end;
  cbv [firstn List.length Nat.sub quiet setters_accepted is_activate];
  split; [exact I |]; split; [tauto |].

(** X8. A load that returns 0 has written nothing to the error channel.
    A load that returns -1 stops at its first failure: up to there
    nothing was printed and every setter returned 0, and the run ends
    either with the lookup of a key and the print of the conversion
    error raised for it, or with a setter call that returned a value
    other than 0, followed by the line [bad return from] and the name of
    that setter exactly when [EMC_DEBUG & EMC_DEBUG_CONFIG] is set. *)
Theorem loadJoint_abort env joint ini c :
  let run := loadJoint env joint ini c in
  let js := jointString joint in
  (outcome_of run = Return 0 -> quiet (events_of run)) /\
  (outcome_of run = Return (-1) ->
   exists front,
     quiet front /\ setters_accepted front /\
     ((exists tag how,
         events_of run
         = (front ++ [Lookup how tag js;
                      Exception_Print
                        (mkException ERR_CONVERSION tag js)])%list) \/
      (exists f r,
         r <> 0 /\ is_activate f = false /\
         events_of run
         = (front ++ Call f r
            :: (if debugging env
                then [rcs_print_error
                        ("bad return from " ++ setter_name (callee_of f)
                         ++ newline)]
                else []))%list))).
Proof.
  wp_start.
  run_loadJoint_full js.
  all: split; [ first [ discriminate | intros _; cbv [quiet]; exact I ] |];
    first
      [ discriminate
      | intros _;
        lazymatch goal with
        | Hm : _ = None |- _ =>
            cut_tail 2%nat; left; eexists; eexists; reflexivity
        | Hd : debugging _ = true, Hr : ?r <> 0,
          Hc : controller _ _ ?f = (?r, _) |- _ =>
            cut_tail 2%nat; right; rewrite Hd; exists f, r;
            split; [assumption |]; split; reflexivity
        | Hd : debugging _ = false, Hr : ?r <> 0,
          Hc : controller _ _ ?f = (?r, _) |- _ =>
            cut_tail 1%nat; right; rewrite Hd; exists f, r;
            split; [assumption |]; split; reflexivity
        end ].
Qed.

Lemma loadJoint_activated_iff env joint ini c :
  activated (events_of (loadJoint env joint ini c)) = true <->
  outcome_of (loadJoint env joint ini c) = Return 0.
Proof.
  wp_start.
  run_loadJoint js.
  all: read_events; split; first [ discriminate | reflexivity ].
Qed.

(** X9. [iniJoint] returns 0 or -1, and it returns 0 exactly when it has
    called [emcJointActivate]: a failure result means the joint was not
    activated, whatever was configured before. *)
Theorem iniJoint_result env joint filename c :
  (outcome_of (iniJoint env joint filename c) = Return 0 \/
   outcome_of (iniJoint env joint filename c) = Return (-1)) /\
  (outcome_of (iniJoint env joint filename c) = Return 0 <->
   activated (events_of (iniJoint env joint filename c)) = true).
Proof.
  rewrite iniJoint_refines. unfold configureUnit.
  assert (Hno : forall A (x : A),
            (@Return Z (-1) = Return 0 \/ @Return Z (-1) = Return (-1)) /\
            (@Return Z (-1) = Return 0 <-> false = true))
    by (intros; split; [now right | split; discriminate]).
  destruct (files env filename) as [d |]; [| exact (Hno _ tt)].
  destruct (lookup d "AXES" "TRAJ") as [err | text]; [exact (Hno _ tt) |].
  destruct (conv_int env text) as [count |]; [| exact (Hno _ tt)].
  destruct ((joint <? 0) || (joint >=? count)); [exact (Hno _ tt) |].
  pose proof (loadJoint_outcome env joint
                (mkIniFile [ERR_TAG_NOT_FOUND; ERR_SECTION_NOT_FOUND;
                            ERR_CONVERSION] d) c) as Ho.
  pose proof (loadJoint_activated_iff env joint
                (mkIniFile [ERR_TAG_NOT_FOUND; ERR_SECTION_NOT_FOUND;
                            ERR_CONVERSION] d) c) as Ha.
  destruct (loadJoint env joint _ c) as [[o c'] evs].
  unfold outcome_of, events_of, activated in *.
  cbn [fst snd calls] in *.
  split; [exact Ho | symmetry; exact Ha].
Qed.

(** ** The loader: what it reads *)

Lemma loadJoint_defaults_accepting env joint ini c :
  (forall tag, present (doc ini) tag (jointString joint) = false) ->
  accepting env ->
  outcome_of (loadJoint env joint ini c) = Return 0 /\
  calls (events_of (loadJoint env joint ini c)) = default_calls env joint.
Proof.
  wp_start.
  run_loadJoint_full js.
  all: intros Hnone Hacc;
    first
      [ match goal with
        | H : lookup _ ?tag _ = inr _ |- _ =>
            pose proof (Hnone tag) as Hno; unfold present in Hno;
            rewrite H in Hno; discriminate Hno
        end
      | match goal with
        | H : resolved _ _ ?tag _ _ EMC_JOINT_ANGULAR |- _ =>
            apply (resolved_absent _ _ _ _ _ _ (Hnone tag)) in H;
            discriminate H
        end
      | match goal with
        | Hr : ?r <> 0, Hc : controller _ ?c ?f = (?r, _) |- _ =>
            exfalso; apply Hr;
            pose proof (Hacc c f eq_refl) as H0;
            rewrite Hc in H0; exact H0
        end
      | repeat match goal with
               | H : resolved _ _ ?tag _ _ _ |- _ =>
                   apply (resolved_absent _ _ _ _ _ _ (Hnone tag)) in H;
                   subst
               end;
        split; reflexivity ].
Qed.

(** X10. A joint within the unit count whose section holds no key, for
    one because the section is missing, is loaded with the defaults:
    [iniJoint] opens the file with the not-found errors raised, for the
    sake of [AXES], yet with a controller that accepts the setters it
    returns 0 after exactly the default calls and the activation. *)
Theorem iniJoint_missing_section env joint filename c d count :
  files env filename = Some d ->
  unit_count env d = Some count ->
  0 <= joint < count ->
  (forall tag, present d tag (jointString joint) = false) ->
  accepting env ->
  outcome_of (iniJoint env joint filename c) = Return 0 /\
  calls (events_of (iniJoint env joint filename c)) = default_calls env joint.
Proof.
  intros Hfile Hcount Hrange Hnone Hacc.
  rewrite iniJoint_refines. unfold configureUnit, unit_count in *.
  rewrite Hfile.
  destruct (lookup d "AXES" "TRAJ") as [err | text]; [discriminate |].
  rewrite Hcount.
  replace ((joint <? 0) || (joint >=? count)) with false
    by (symmetry; apply orb_false_iff;
        rewrite Z.ltb_ge, Z.geb_leb, Z.leb_gt; lia).
  pose proof (loadJoint_defaults_accepting env joint
                (mkIniFile [ERR_TAG_NOT_FOUND; ERR_SECTION_NOT_FOUND;
                            ERR_CONVERSION] d) c Hnone Hacc) as [Ho Hc].
  destruct (loadJoint env joint _ c) as [[o c'] evs].
  split; [exact Ho | exact Hc].
Qed.

Lemma iniJoint_missing_section_witness :
  let env := Sample.surroundings Sample.accept_all Sample.disk in
  (forall tag, present Sample.machine tag (jointString 0) = false) /\
  accepting env /\
  outcome_of (iniJoint env 0 "machine.ini" 0%nat) = Return 0.
Proof.
  intros env.
  assert (Hnone : forall tag,
             present Sample.machine tag (jointString 0) = false)
    by reflexivity.
  assert (Hacc : accepting env) by (intros c f _; reflexivity).
  split; [exact Hnone |]. split; [exact Hacc |].
  apply (iniJoint_missing_section env 0 "machine.ini" 0%nat
           Sample.machine 3 eq_refl eq_refl);
    [lia | exact Hnone | exact Hacc].
Defined.

(** X11. The keys [loadJoint] reads are an initial part of the schema
    in its order, each read once, with the lookup its type asks for and
    in the joint's own section; a load that returns 0 has read all
    twenty-one keys. *)
Theorem loadJoint_reads_schema env joint ini c :
  let run := loadJoint env joint ini c in
  let js := jointString joint in
  let t := resolved_type env (doc ini) js in
  (exists rest,
     schema_reads t js = (lookups (events_of run) ++ rest)%list) /\
  (outcome_of run = Return 0 ->
   lookups (events_of run) = schema_reads t js).
Proof.
  wp_start.
  run_loadJoint js.
  all: type_known;
    cbv [schema_reads schema map lookups units_lookup fst snd];
    split;
    [ eexists; reflexivity
    | first [ discriminate | intros _; reflexivity ] ].
Qed.

Section Congruence.

Variable env : Environment.

Lemma bind_cong {A B} (m1 m2 : M env A) (k1 k2 : A -> M env B) c :
  m1 c = m2 c ->
  (forall a c', k1 a c' = k2 a c') ->
  bind env m1 k1 c = bind env m2 k2 c.
Proof.
  intros Hm Hk. unfold bind. rewrite Hm.
  destruct (m2 c) as [[[a | r | e] c1] l1]; [| reflexivity | reflexivity].
  now rewrite Hk.
Qed.

Lemma try_catch_cong {A} (b1 b2 : M env A) h c :
  b1 c = b2 c -> try_catch env b1 h c = try_catch env b2 h c.
Proof. intros Hb. unfold try_catch. now rewrite Hb. Qed.

Lemma Find_as_raw {A} how (conv : string -> option A) f x tag js c :
  Find_as env how conv (EnableExceptions f [ERR_CONVERSION]) x tag js c
  = (match raw (doc f) tag js with
     | None => Normal x
     | Some text =>
         match conv text with
         | Some v => Normal v
         | None => Throw (mkException ERR_CONVERSION tag js)
         end
     end, c, [Lookup how tag js]).
Proof.
  unfold Find_as, raw, bind, tell. cbn [doc EnableExceptions].
  destruct (lookup (doc f) tag js) as [err | text] eqn:E.
  - destruct (lookup_absent _ _ _ _ E) as [-> | ->]; reflexivity.
  - destruct (conv text); reflexivity.
Qed.

Lemma Find_string_raw f tag js c :
  Find_string env (EnableExceptions f [ERR_CONVERSION]) tag js c
  = (Normal (raw (doc f) tag js), c, [Lookup AsString tag js]).
Proof.
  unfold Find_string, raw, bind, tell. cbn [doc EnableExceptions].
  destruct (lookup (doc f) tag js) as [err | text] eqn:E.
  - destruct (lookup_absent _ _ _ _ E) as [-> | ->]; reflexivity.
  - reflexivity.
Qed.

End Congruence.

(** X4. The run of [loadJoint] is decided by the texts of the keys in
    the joint's own section: two files that agree on them give the same
    outcome, controller state and events, whatever their other sections
    hold, whether a key is absent for want of its tag or of the whole
    section, and whatever error mode the files were opened with. *)
Theorem loadJoint_own_section env joint ini1 ini2 c :
  (forall tag, raw (doc ini1) tag (jointString joint)
               = raw (doc ini2) tag (jointString joint)) ->
  loadJoint env joint ini1 c = loadJoint env joint ini2 c.
Proof.
  intros Hraw.
  unfold loadJoint, Find_jointType, Find_double, Find_bool, Find_int,
    FindLinearUnits, FindAngularUnits.
  cbv zeta. revert Hraw. generalize (jointString joint). intros js Hraw.
  apply bind_cong; [| reflexivity].
  apply try_catch_cong.
  repeat (apply bind_cong;
          [ first [ rewrite !Find_as_raw, Hraw; reflexivity
                  | rewrite !Find_string_raw, Hraw; reflexivity
                  | reflexivity
                  | match goal with
                    | |- match ?t with _ => _ end _ = _ =>
                        destruct t; rewrite !Find_as_raw, Hraw; reflexivity
                    end ]
          | intros ]).
  reflexivity.
Qed.

Lemma loadJoint_own_section_witness :
  let env := Sample.surroundings Sample.accept_all Sample.disk in
  let alone :=
    [("JOINT_1", [("COMP_FILE", "comp.txt"); ("HOME_USE_INDEX", "YES");
                  ("FERROR", "0.5"); ("UNITS", "rad");
                  ("TYPE", "ANGULAR")])] in
  (forall tag, raw Sample.machine tag (jointString 1)
               = raw alone tag (jointString 1)) /\
  loadJoint env 1
    (mkIniFile [ERR_TAG_NOT_FOUND; ERR_SECTION_NOT_FOUND] Sample.machine)
    0%nat
  = loadJoint env 1 (mkIniFile [] alone) 0%nat.
Proof.
  intros env alone.
  assert (Hraw : forall tag, raw Sample.machine tag (jointString 1)
                             = raw alone tag (jointString 1)).
  { intros tag. unfold raw, lookup, alone. cbn [assoc Sample.machine].
    change (jointString 1) with "JOINT_1".
    cbn [String.eqb Ascii.eqb Bool.eqb assoc].
    destruct (String.eqb_spec tag "TYPE") as [-> | H1]; [reflexivity |].
    destruct (String.eqb_spec tag "UNITS") as [-> | H2]; [reflexivity |].
    destruct (String.eqb_spec tag "FERROR") as [-> | H3]; [reflexivity |].
    destruct (String.eqb_spec tag "HOME_USE_INDEX") as [-> | H4];
      [reflexivity |].
    destruct (String.eqb_spec tag "COMP_FILE") as [-> | H5]; [reflexivity |].
    repeat match goal with
           | H : tag <> ?s |- _ =>
               apply String.eqb_neq in H; rewrite ?H; clear H
           end.
    reflexivity. }
  split; [exact Hraw |].
  exact (loadJoint_own_section env 1
           (mkIniFile [ERR_TAG_NOT_FOUND; ERR_SECTION_NOT_FOUND]
                      Sample.machine)
           (mkIniFile [] alone) 0%nat Hraw).
Defined.

(** * Progress: what a run does when its steps succeed

    The hypotheses below are on the input of the run, the document and
    the controller, not on its trace. *)

(** A setter was rejected, against a controller that accepts. *)
Ltac refute_rejection Hacc :=
  match goal with
  | Hr : ?r <> 0, Hc : controller _ ?c ?f = (?r, _) |- _ =>
      exfalso; apply Hr;
      let H0 := fresh in
      pose proof (Hacc c f eq_refl) as H0; rewrite Hc in H0; exact H0
  end.

(** A lookup raised, in a section without a malformed key. *)
Ltac refute_malformed Hsm :=
  unfold some_malformed in Hsm; type_known;
  lazymatch goal with
  | Hp : lookup ?d ?tag ?js = inr ?text, Hm : ?conv ?text = None |- _ =>
      lazymatch type of Hsm with
      | ?E = false =>
          exfalso;
          let how := how_of conv in
          assert (Hex : E = true)
            by (apply existsb_exists; exists (tag, how);
                split;
                [ cbv [schema units_lookup In];
                  repeat (first [ left; reflexivity | right ])
                | raised_key_malformed ]);
          rewrite Hex in Hsm; discriminate Hsm
      end
  end.

(** Every lookup resolved, in a section with a malformed key. *)
Ltac refute_well_formed Hsm :=
  unfold some_malformed in Hsm; type_known;
  cbv [schema existsb units_lookup] in Hsm;
  repeat match goal with
         | Hv : resolved ?conv ?d ?tag ?js _ _ |- _ =>
             let how := how_of conv in
             rewrite (resolved_well_formed _ d js tag how conv _ _
                        (fun _ => eq_refl) Hv) in Hsm;
             clear Hv
         end;
  rewrite text_well_formed in Hsm;
  discriminate Hsm.

Ltac find_event := cbv [In]; repeat (first [ left; reflexivity | right ]).

Lemma calls_app l1 l2 : calls (l1 ++ l2) = (calls l1 ++ calls l2)%list.
Proof.
  induction l1 as [| e l1 IH]; [reflexivity |].
  destruct e; simpl; now rewrite ?IH.
Qed.

Lemma callees_app l1 l2 :
  callees (l1 ++ l2) = (callees l1 ++ callees l2)%list.
Proof. unfold callees. now rewrite calls_app, map_app. Qed.

Lemma loadJoint_accepting_run env joint ini c :
  accepting env -> setters_accepted (events_of (loadJoint env joint ini c)).
Proof.
  wp_start.
  run_loadJoint_full js.
  all: intros Hacc; first [ refute_rejection Hacc | read_events; tauto ].
Qed.

Lemma loadJoint_activated_input env joint ini c :
  activated (events_of (loadJoint env joint ini c)) = true <->
  some_malformed env (doc ini) (jointString joint) = false /\
  setters_accepted (events_of (loadJoint env joint ini c)).
Proof.
  wp_start.
  run_loadJoint js.
  all: read_events; split;
    [ first
        [ discriminate
        | intros _; split;
          [ match goal with
            | |- ?b = false =>
                destruct b eqn:Hsm; [refute_well_formed Hsm | reflexivity]
            end
          | tauto ] ]
    | first
        [ reflexivity
        | intros [Hsm Hacc];
          first [ exfalso; tauto | refute_malformed Hsm ] ] ].
Qed.

Lemma loadJoint_rejected_setter env joint ini c k :
  k <> Activate ->
  (k = LoadComp ->
   present (doc ini) "COMP_FILE" (jointString joint) = true) ->
  rejects env k ->
  activated (events_of (loadJoint env joint ini c)) = false.
Proof.
  revert k.
  wp_start.
  run_loadJoint_full js.
  all: intros k Hk Hcompk Hrej; read_events;
    first
      [ reflexivity
      | exfalso; destruct k;
        first
          [ now apply Hk
          | match goal with
            | Hc : controller _ ?c ?f = (0, _) |- _ =>
                apply (Hrej c f eq_refl); rewrite Hc; reflexivity
            end
          | specialize (Hcompk eq_refl); unfold present in Hcompk;
            match goal with
            | H : lookup _ "COMP_FILE" _ = _ |- _ => rewrite H in Hcompk
            end;
            discriminate Hcompk ] ].
Qed.

(** C1. The controller calls of [loadJoint] are an initial part of the
    fixed order [emcJointSetJoint], [emcJointSetUnits],
    [emcJointSetBacklash], [emcJointSetMinPositionLimit],
    [emcJointSetMaxPositionLimit], [emcJointSetFerror],
    [emcJointSetMinFerror], [emcJointSetHomingParams],
    [emcJointSetMaxVelocity], [emcJointSetMaxAcceleration], then
    [emcJointLoadComp] only when [COMP_FILE] is present, then
    [emcJointActivate].  [emcJointActivate] is called exactly when no
    lookup raised and every setter before it returned 0, which is
    exactly when the load returns 0; in that case the calls are the
    whole order and the activation is the last event of the run.  In
    terms of the input: the activation happens exactly when no key of
    the section is malformed and every setter called returned 0; with a
    controller that accepts the setters and no malformed key the load
    returns 0 after the calls of the whole order; it never activates
    when a key is malformed, nor when the controller rejects one of the
    setters of the order. *)
Theorem loadJoint_call_order env joint ini c :
  let run := loadJoint env joint ini c in
  let js := jointString joint in
  let comp := present (doc ini) "COMP_FILE" js in
  (exists rest, call_order comp = (callees (events_of run) ++ rest)%list) /\
  (activated (events_of run) = true ->
   setters_accepted (events_of run) /\ nothing_raised (events_of run)) /\
  (setters_accepted (events_of run) /\ nothing_raised (events_of run) ->
   activated (events_of run) = true) /\
  (activated (events_of run) = true -> outcome_of run = Return 0) /\
  (outcome_of run = Return 0 -> activated (events_of run) = true) /\
  (outcome_of run = Return 0 ->
   exists front r,
     events_of run = (front ++ [Call (emcJointActivate joint) r])%list /\
     call_order comp = (callees front ++ [Activate])%list) /\
  (activated (events_of run) = true <->
   some_malformed env (doc ini) js = false /\
   setters_accepted (events_of run)) /\
  (accepting env -> some_malformed env (doc ini) js = false ->
   outcome_of run = Return 0 /\
   callees (events_of run) = call_order comp) /\
  (some_malformed env (doc ini) js = true ->
   activated (events_of run) = false) /\
  (forall k, k <> Activate -> (k = LoadComp -> comp = true) ->
             rejects env k -> activated (events_of run) = false).
Proof.
  cbv zeta.
  pose proof (loadJoint_trace_order env joint ini c) as Htrace.
  cbv zeta in Htrace.
  destruct Htrace as (Hprefix & Hact1 & Hact2 & Hres1 & Hres2 & Hlast).
  pose proof (loadJoint_activated_input env joint ini c) as Hinput.
  repeat match goal with |- _ /\ _ => split end; try assumption.
  - intros Hacc Hsm.
    assert (Ha : activated (events_of (loadJoint env joint ini c)) = true).
    { apply Hinput. split; [exact Hsm |].
      now apply loadJoint_accepting_run. }
    split; [now apply Hres1 |].
    destruct (Hlast (Hres1 Ha)) as (front & r & Hevs & Horder).
    rewrite Hevs, callees_app. now rewrite Horder.
  - intros Hsm.
    destruct (activated _) eqn:Ha; [| reflexivity].
    destruct (proj1 Hinput eq_refl) as [Hsm' _]. congruence.
  - intros k Hk Hcomp Hrej.
    now apply (loadJoint_rejected_setter env joint ini c k).
Qed.

Lemma loadJoint_call_order_witness :
  let env := Sample.surroundings Sample.accept_all Sample.disk in
  let run := loadJoint env 1 (mkIniFile [] Sample.machine) 0%nat in
  accepting env /\
  some_malformed env Sample.machine (jointString 1) = false /\
  outcome_of run = Return 0 /\
  callees (events_of run) = call_order true.
Proof.
  intros env run.
  assert (Hacc : accepting env) by (intros c f _; reflexivity).
  assert (Hsm : some_malformed env Sample.machine (jointString 1) = false)
    by reflexivity.
  split; [exact Hacc |]. split; [exact Hsm |].
  pose proof (loadJoint_call_order env 1 (mkIniFile [] Sample.machine)
                0%nat) as H.
  cbv zeta in H.
  exact (proj1 (proj2 (proj2 (proj2 (proj2 (proj2 (proj2 (proj2 H)))))))
           Hacc Hsm).
Defined.

Lemma loadJoint_units_progress env joint ini c t :
  resolved (conv_jointType env) (doc ini) "TYPE" (jointString joint)
           EMC_JOINT_LINEAR t ->
  exists back,
    events_of (loadJoint env joint ini c)
    = Lookup AsJointType "TYPE" (jointString joint)
      :: Call (emcJointSetJoint joint t)
              (fst (controller env c (emcJointSetJoint joint t)))
      :: back /\
    (fst (controller env c (emcJointSetJoint joint t)) = 0 ->
     forall u,
       resolved (units_conv env t) (doc ini) "UNITS" (jointString joint)
                (units_default env t) u ->
       exists r back',
         back = Lookup (units_lookup t) "UNITS" (jointString joint)
                :: Call (emcJointSetUnits joint u) r :: back').
Proof.
  revert t.
  wp_start.
  run_loadJoint_full js.
  all: intros t Ht;
    first
      [ match goal with
        | Hp : lookup _ "TYPE" _ = inr _,
          Hm : conv_jointType _ _ = None |- _ =>
            unfold resolved in Ht; rewrite Hp in Ht; congruence
        end
      | match goal with
        | Hv : resolved _ _ "TYPE" _ _ _ |- _ =>
            pose proof (resolved_functional _ _ _ _ _ _ _ Ht Hv); subst t
        end;
        match goal with
        | Hc : controller _ _ (emcJointSetJoint _ _) = _ |- _ => rewrite Hc
        end;
        cbn [fst]; eexists; split; [reflexivity |];
        intros Hz;
        first
          [ congruence
          | intros u Hu; cbn [units_conv units_default] in Hu;
            first
              [ match goal with
                | Hp : lookup _ "UNITS" _ = inr _, Hm : _ = None |- _ =>
                    unfold resolved in Hu; rewrite Hp in Hu; congruence
                end
              | match goal with
                | Hv : resolved _ _ "UNITS" _ _ _ |- _ =>
                    pose proof (resolved_functional _ _ _ _ _ _ _ Hu Hv);
                    subst u
                end;
                eexists; eexists; reflexivity ] ] ].
Qed.

(** C6. With [t] the joint type the [TYPE] lookup resolves, the run
    starts with that lookup and the call of [emcJointSetJoint] with
    [t]; when the controller returns 0 from it, the unit-aware lookup
    of [t] for [UNITS] comes next and then, for a [UNITS] that is absent
    or converts under the conversion of [t], the call of
    [emcJointSetUnits] with the converted text or, for the absent key,
    the trajectory-level units of [t].  No other [UNITS] lookup, no
    [emcJointSetUnits] with another value and no [emcJointSetJoint] with
    another type occurs in the run. *)
Theorem loadJoint_units_follow_type env joint ini c t :
  resolved (conv_jointType env) (doc ini) "TYPE" (jointString joint)
           EMC_JOINT_LINEAR t ->
  (exists back,
     events_of (loadJoint env joint ini c)
     = Lookup AsJointType "TYPE" (jointString joint)
       :: Call (emcJointSetJoint joint t)
               (fst (controller env c (emcJointSetJoint joint t)))
       :: back /\
     (fst (controller env c (emcJointSetJoint joint t)) = 0 ->
      forall u,
        resolved (units_conv env t) (doc ini) "UNITS" (jointString joint)
                 (units_default env t) u ->
        exists r back',
          back = Lookup (units_lookup t) "UNITS" (jointString joint)
                 :: Call (emcJointSetUnits joint u) r :: back')) /\
  (forall how,
     In (Lookup how "UNITS" (jointString joint))
        (events_of (loadJoint env joint ini c)) ->
     how = units_lookup t) /\
  (forall u r,
     In (Call (emcJointSetUnits joint u) r)
        (events_of (loadJoint env joint ini c)) ->
     resolved (units_conv env t) (doc ini) "UNITS" (jointString joint)
              (units_default env t) u) /\
  (forall t' r,
     In (Call (emcJointSetJoint joint t') r)
        (events_of (loadJoint env joint ini c)) ->
     t' = t /\
     (r = 0 ->
      exists back,
        events_of (loadJoint env joint ini c)
        = ([Lookup AsJointType "TYPE" (jointString joint);
            Call (emcJointSetJoint joint t) 0;
            Lookup (units_lookup t) "UNITS" (jointString joint)]
           ++ back)%list)).
Proof.
  intros Ht. split.
  - now apply loadJoint_units_progress.
  - now apply loadJoint_units_trace.
Qed.

Lemma loadJoint_units_follow_type_witness :
  let env := Sample.surroundings Sample.accept_all Sample.disk in
  let run := loadJoint env 1 (mkIniFile [] Sample.machine) 0%nat in
  resolved (conv_jointType env) Sample.machine "TYPE" (jointString 1)
           EMC_JOINT_LINEAR EMC_JOINT_ANGULAR /\
  exists r back,
    events_of run
    = Lookup AsJointType "TYPE" (jointString 1)
      :: Call (emcJointSetJoint 1 EMC_JOINT_ANGULAR) 0
      :: Lookup AsAngularUnits "UNITS" (jointString 1)
      :: Call (emcJointSetUnits 1 2%float) r :: back.
Proof.
  intros env run.
  assert (Ht : resolved (conv_jointType env) Sample.machine "TYPE"
                 (jointString 1) EMC_JOINT_LINEAR EMC_JOINT_ANGULAR)
    by reflexivity.
  split; [exact Ht |].
  destruct (proj1 (loadJoint_units_follow_type env 1
                     (mkIniFile [] Sample.machine) 0%nat
                     EMC_JOINT_ANGULAR Ht)) as (back & Hevs & Hunits).
  destruct (Hunits eq_refl 2%float eq_refl) as (r & back' & Hback).
  exists r, back'. fold run in Hevs. rewrite Hevs, Hback. reflexivity.
Defined.

Lemma loadJoint_homing_progress env joint ini c :
  accepting env ->
  some_malformed env (doc ini) (jointString joint) = false ->
  exists home offset home_vel search_vel latch_vel
         use_index ignore_limits is_shared sequence volatile_home,
    In (Call (emcJointSetHomingParams joint home offset home_vel
                search_vel latch_vel use_index ignore_limits is_shared
                sequence volatile_home) 0)
       (events_of (loadJoint env joint ini c)).
Proof.
  wp_start.
  run_loadJoint_full js.
  all: intros Hacc Hsm;
    first
      [ refute_rejection Hacc
      | refute_malformed Hsm
      | do 10 eexists; find_event ].
Qed.

(** C7. [emcJointSetHomingParams] is called at most once in a run and
    exactly once in a load that returns 0.  The call comes right after
    the ten lookups of the homing group, and each of its ten values is
    the one its own key resolved to, with the default of that key:
    0 for [HOME], [HOME_OFFSET], [HOME_SEARCH_VEL], [HOME_LATCH_VEL],
    -1 for [HOME_VEL], false for [HOME_IS_SHARED], [HOME_USE_INDEX],
    [HOME_IGNORE_LIMITS], -1 for [HOME_SEQUENCE] and 0 for
    [VOLATILE_HOME].  With a controller that accepts the setters and no
    malformed key in the section the call is made, once and with result
    0.  The controller has no other call that takes a homing value. *)
Theorem loadJoint_homing_params env joint ini c :
  let run := loadJoint env joint ini c in
  let js := jointString joint in
  let d := doc ini in
  (accepting env -> some_malformed env d js = false ->
   homing_calls (events_of run) = 1%nat /\
   exists home offset home_vel search_vel latch_vel
          use_index ignore_limits is_shared sequence volatile_home,
     In (Call (emcJointSetHomingParams joint home offset home_vel
                 search_vel latch_vel use_index ignore_limits is_shared
                 sequence volatile_home) 0) (events_of run)) /\
  (homing_calls (events_of run) <= 1)%nat /\
  (outcome_of run = Return 0 -> homing_calls (events_of run) = 1%nat) /\
  (forall home offset home_vel search_vel latch_vel
          use_index ignore_limits is_shared sequence volatile_home r,
     In (Call (emcJointSetHomingParams joint home offset home_vel
                 search_vel latch_vel use_index ignore_limits is_shared
                 sequence volatile_home) r) (events_of run) ->
     exists front back,
       events_of run
       = (front ++ homing_lookups js
          ++ [Call (emcJointSetHomingParams joint home offset home_vel
                      search_vel latch_vel use_index ignore_limits
                      is_shared sequence volatile_home) r]
          ++ back)%list /\
       homing_calls front = 0%nat /\
       homing_calls back = 0%nat /\
       resolved (conv_double env) d "HOME" js 0%float home /\
       resolved (conv_double env) d "HOME_OFFSET" js 0%float offset /\
       resolved (conv_double env) d "HOME_SEARCH_VEL" js 0%float
                search_vel /\
       resolved (conv_double env) d "HOME_LATCH_VEL" js 0%float latch_vel /\
       resolved (conv_double env) d "HOME_VEL" js (-1)%float home_vel /\
       (exists b, resolved (conv_bool env) d "HOME_IS_SHARED" js false b /\
                  is_shared = Z.b2z b) /\
       (exists b, resolved (conv_bool env) d "HOME_USE_INDEX" js false b /\
                  use_index = Z.b2z b) /\
       (exists b,
          resolved (conv_bool env) d "HOME_IGNORE_LIMITS" js false b /\
          ignore_limits = Z.b2z b) /\
       resolved (conv_int env) d "HOME_SEQUENCE" js (-1) sequence /\
       resolved (conv_int env) d "VOLATILE_HOME" js 0 volatile_home).
Proof.
  cbv zeta.
  pose proof (loadJoint_homing_trace env joint ini c) as Htrace.
  cbv zeta in Htrace. destruct Htrace as (Hmost & Hone & Hvalues).
  split; [| split; [exact Hmost | split; [exact Hone | exact Hvalues]]].
  intros Hacc Hsm. split.
  - apply Hone.
    apply (proj1 (loadJoint_activated_iff env joint ini c)).
    apply (proj2 (loadJoint_activated_input env joint ini c)).
    split; [exact Hsm | now apply loadJoint_accepting_run].
  - now apply loadJoint_homing_progress.
Qed.

Lemma loadJoint_homing_params_witness :
  let env := Sample.surroundings Sample.accept_all Sample.disk in
  let run := loadJoint env 1 (mkIniFile [] Sample.machine) 0%nat in
  accepting env /\
  some_malformed env Sample.machine (jointString 1) = false /\
  homing_calls (events_of run) = 1%nat /\
  In (Call (emcJointSetHomingParams 1 0%float 0%float (-1)%float 0%float
              0%float 1 0 0 (-1) 0) 0) (events_of run).
Proof.
  intros env run.
  assert (Hacc : accepting env) by (intros c f _; reflexivity).
  assert (Hsm : some_malformed env Sample.machine (jointString 1) = false)
    by reflexivity.
  split; [exact Hacc |]. split; [exact Hsm |].
  pose proof (loadJoint_homing_params env 1 (mkIniFile [] Sample.machine)
                0%nat) as H.
  cbv zeta in H. destruct H as (Hmade & _ & _ & Hvalues).
  destruct (Hmade Hacc Hsm) as (Hone & home & offset & home_vel & search_vel
                                & latch_vel & use_index & ignore_limits
                                & is_shared & sequence & volatile_home
                                & Hin).
  split; [exact Hone |].
  destruct (Hvalues _ _ _ _ _ _ _ _ _ _ _ Hin)
    as (front & back & _ & _ & _ & Hh & Ho & Hs & Hl & Hv
        & (b1 & Hb1 & ->) & (b2 & Hb2 & ->) & (b3 & Hb3 & ->) & Hq & Hvh).
  cbv in Hh, Ho, Hs, Hl, Hv, Hb1, Hb2, Hb3, Hq, Hvh.
  injection Hb2 as <-.
  subst. exact Hin.
Defined.

Lemma loadJoint_setter_progress env joint ini c :
  accepting env ->
  some_malformed env (doc ini) (jointString joint) = false ->
  let evs := events_of (loadJoint env joint ini c) in
  let from := resolved (conv_double env) (doc ini) in
  let js := jointString joint in
  (forall v, from "BACKLASH" js 0%float v ->
             In (Call (emcJointSetBacklash joint v) 0) evs) /\
  (forall v, from "MIN_LIMIT" js (-1e99)%float v ->
             In (Call (emcJointSetMinPositionLimit joint v) 0) evs) /\
  (forall v, from "MAX_LIMIT" js 1e99%float v ->
             In (Call (emcJointSetMaxPositionLimit joint v) 0) evs) /\
  (forall v, from "FERROR" js 1%float v ->
             In (Call (emcJointSetFerror joint v) 0) evs) /\
  (forall v, from "MAX_VELOCITY" js (DEFAULT_JOINT_MAX_VELOCITY env) v ->
             In (Call (emcJointSetMaxVelocity joint v) 0) evs) /\
  (forall v, from "MAX_ACCELERATION" js
                  (DEFAULT_JOINT_MAX_ACCELERATION env) v ->
             In (Call (emcJointSetMaxAcceleration joint v) 0) evs).
Proof.
  wp_start.
  run_loadJoint_full js.
  all: intros Hacc Hsm;
    first
      [ refute_rejection Hacc
      | refute_malformed Hsm
      | repeat match goal with |- _ /\ _ => split end;
        intros x Hx;
        match goal with
        | Hv : resolved _ _ _ _ _ _ |- _ =>
            lazymatch Hv with
            | Hx => fail
            | _ => pose proof (resolved_functional _ _ _ _ _ _ _ Hx Hv)
            end
        end;
        subst x; find_event ].
Qed.

(** X6. Each of the plain setters receives the value of its own key:
    [emcJointSetBacklash] the converted [BACKLASH] or 0,
    [emcJointSetMinPositionLimit] the converted [MIN_LIMIT] or -1e99,
    [emcJointSetMaxPositionLimit] the converted [MAX_LIMIT] or 1e99,
    [emcJointSetFerror] the converted [FERROR] or 1,
    [emcJointSetMaxVelocity] the converted [MAX_VELOCITY] or
    [DEFAULT_JOINT_MAX_VELOCITY], and [emcJointSetMaxAcceleration] the
    converted [MAX_ACCELERATION] or [DEFAULT_JOINT_MAX_ACCELERATION]:
    with a controller that accepts the setters and no malformed key in
    the section each of these calls is made with that value, and in no
    run is one of them made with another value. *)
Theorem loadJoint_setter_values env joint ini c :
  let evs := events_of (loadJoint env joint ini c) in
  let from := resolved (conv_double env) (doc ini) in
  let js := jointString joint in
  (accepting env -> some_malformed env (doc ini) js = false ->
   (forall v, from "BACKLASH" js 0%float v ->
              In (Call (emcJointSetBacklash joint v) 0) evs) /\
   (forall v, from "MIN_LIMIT" js (-1e99)%float v ->
              In (Call (emcJointSetMinPositionLimit joint v) 0) evs) /\
   (forall v, from "MAX_LIMIT" js 1e99%float v ->
              In (Call (emcJointSetMaxPositionLimit joint v) 0) evs) /\
   (forall v, from "FERROR" js 1%float v ->
              In (Call (emcJointSetFerror joint v) 0) evs) /\
   (forall v, from "MAX_VELOCITY" js (DEFAULT_JOINT_MAX_VELOCITY env) v ->
              In (Call (emcJointSetMaxVelocity joint v) 0) evs) /\
   (forall v, from "MAX_ACCELERATION" js
                   (DEFAULT_JOINT_MAX_ACCELERATION env) v ->
              In (Call (emcJointSetMaxAcceleration joint v) 0) evs)) /\
  (forall v r, In (Call (emcJointSetBacklash joint v) r) evs ->
               from "BACKLASH" js 0%float v) /\
  (forall v r, In (Call (emcJointSetMinPositionLimit joint v) r) evs ->
               from "MIN_LIMIT" js (-1e99)%float v) /\
  (forall v r, In (Call (emcJointSetMaxPositionLimit joint v) r) evs ->
               from "MAX_LIMIT" js 1e99%float v) /\
  (forall v r, In (Call (emcJointSetFerror joint v) r) evs ->
               from "FERROR" js 1%float v) /\
  (forall v r, In (Call (emcJointSetMaxVelocity joint v) r) evs ->
               from "MAX_VELOCITY" js (DEFAULT_JOINT_MAX_VELOCITY env) v) /\
  (forall v r, In (Call (emcJointSetMaxAcceleration joint v) r) evs ->
               from "MAX_ACCELERATION" js
                    (DEFAULT_JOINT_MAX_ACCELERATION env) v).
Proof.
  cbv zeta. split.
  - intros Hacc Hsm.
    exact (loadJoint_setter_progress env joint ini c Hacc Hsm).
  - exact (loadJoint_setter_trace env joint ini c).
Qed.

Lemma loadJoint_setter_values_witness :
  let env := Sample.surroundings Sample.accept_all Sample.disk in
  let run := loadJoint env 1 (mkIniFile [] Sample.machine) 0%nat in
  accepting env /\
  some_malformed env Sample.machine (jointString 1) = false /\
  In (Call (emcJointSetFerror 1 0.5%float) 0) (events_of run) /\
  In (Call (emcJointSetBacklash 1 0%float) 0) (events_of run) /\
  In (Call (emcJointSetMaxVelocity 1 1.2%float) 0) (events_of run).
Proof.
  intros env run.
  assert (Hacc : accepting env) by (intros c f _; reflexivity).
  assert (Hsm : some_malformed env Sample.machine (jointString 1) = false)
    by reflexivity.
  split; [exact Hacc |]. split; [exact Hsm |].
  pose proof (loadJoint_setter_values env 1 (mkIniFile [] Sample.machine)
                0%nat) as H.
  cbv zeta in H.
  destruct (proj1 H Hacc Hsm) as (Hb & _ & _ & Hf & Hv & _).
  split; [exact (Hf 0.5%float eq_refl) |].
  split; [exact (Hb 0%float eq_refl) | exact (Hv 1.2%float eq_refl)].
Defined.

(** ** The buffer of the section name *)

Section Digits.

Import Decimal.

Lemma string_of_uint_length d :
  String.length (NilEmpty.string_of_uint d) = nb_digits d.
Proof. induction d; simpl; congruence. Qed.

(** The digits read behind an accumulator shift it left. *)
Lemma of_uint_acc_lower d : forall acc,
  (N.pos acc * 10 ^ N.of_nat (nb_digits d)
   <= N.pos (Pos.of_uint_acc d acc))%N.
Proof.
  induction d; intros acc; cbn [Pos.of_uint_acc nb_digits];
    [ rewrite N.pow_0_r; lia | .. ];
    (eapply N.le_trans; [| apply IHd]);
    rewrite Nat2N.inj_succ, N.pow_succ_r';
    generalize (10 ^ N.of_nat (nb_digits d))%N; intros m; lia.
Qed.

(** A number written without a leading zero is at least the power of
    ten of its digits behind the first. *)
Lemma of_uint_lower d :
  d <> Nil -> nzhead d = d ->
  (10 ^ N.of_nat (Nat.pred (nb_digits d)) <= Pos.of_uint d)%N.
Proof.
  intros Hnil Hhead.
  destruct d; try congruence; cbn [nb_digits Nat.pred Pos.of_uint];
    try (eapply N.le_trans; [| apply of_uint_acc_lower]; nia).
  exfalso. cbn [nzhead] in Hhead.
  pose proof (DecimalFacts.nb_digits_nzhead d) as H. rewrite Hhead in H.
  cbn [nb_digits] in H. lia.
Qed.

Lemma to_uint_head p : nzhead (Pos.to_uint p) = Pos.to_uint p.
Proof.
  pose proof (DecimalPos.Unsigned.to_of (Pos.to_uint p)) as H.
  rewrite DecimalPos.Unsigned.of_to in H. cbn [N.to_uint] in H.
  unfold unorm in H.
  destruct (nzhead (Pos.to_uint p)) eqn:E; try (symmetry; exact H).
  exfalso. now apply (DecimalPos.Unsigned.to_uint_nonzero p).
Qed.

Lemma to_uint_digits p :
  (N.pos p < 10 ^ 9)%N -> (nb_digits (Pos.to_uint p) <= 9)%nat.
Proof.
  intros Hp.
  pose proof (of_uint_lower (Pos.to_uint p)
                (DecimalPos.Unsigned.to_uint_nonnil p) (to_uint_head p))
    as H.
  rewrite DecimalPos.Unsigned.of_to in H.
  destruct (Nat.le_gt_cases (nb_digits (Pos.to_uint p)) 9) as [Hle | Hgt];
    [exact Hle | exfalso].
  assert (Hpow : (10 ^ 9 <= 10 ^ N.of_nat (Nat.pred (nb_digits
                                              (Pos.to_uint p))))%N)
    by (apply N.pow_le_mono_r; lia).
  lia.
Qed.

End Digits.

Lemma decimal_length n :
  0 <= n < 10 ^ 9 -> (String.length (decimal n) <= 9)%nat.
Proof.
  intros Hn. unfold decimal.
  destruct n as [| p | p]; [cbn; lia | | lia].
  cbn [Z.to_int NilZero.string_of_int].
  pose proof (DecimalPos.Unsigned.to_uint_nonnil p) as Hnil.
  unfold NilZero.string_of_uint.
  destruct (Pos.to_uint p) eqn:E; try congruence;
    rewrite <- E, string_of_uint_length; apply to_uint_digits; lia.
Qed.

Lemma jointString_decimal j : jointString j = "JOINT_" ++ decimal j.
Proof.
  unfold jointString. cbn [sprintf append]. do 6 f_equal.
  induction (decimal j) as [| ch s IH]; simpl; congruence.
Qed.

(** X3. For a joint number from 0 up to 10^9, the range in which
    [iniJoint] calls [loadJoint] on a machine of up to 10^9 axes, the
    section name [JOINT_] and the decimal number, with its terminating
    NUL, fits the 16 bytes of [jointString]; and two such joints have
    the same section name only when they are the same joint. *)
Theorem jointString_fits j1 j2 :
  0 <= j1 < 10 ^ 9 -> 0 <= j2 < 10 ^ 9 ->
  (String.length (jointString j1) + 1 <= 16)%nat /\
  (jointString j1 = jointString j2 <-> j1 = j2).
Proof.
  intros H1 H2. split.
  - rewrite jointString_decimal. cbn [append String.length].
    pose proof (decimal_length j1 H1). lia.
  - split; [| now intros ->].
    rewrite !jointString_decimal. cbn [append]. intros H.
    injection H as H. now apply decimal_inj.
Qed.

Lemma jointString_fits_witness :
  0 <= 999999999 < 10 ^ 9 /\ 0 <= 7 < 10 ^ 9 /\
  (String.length (jointString 999999999) + 1 <= 16)%nat /\
  (jointString 999999999 = jointString 7 <-> 999999999 = 7).
Proof.
  assert (H1 : 0 <= 999999999 < 10 ^ 9) by lia.
  assert (H2 : 0 <= 7 < 10 ^ 9) by lia.
  split; [exact H1 |]. split; [exact H2 |].
  exact (jointString_fits 999999999 7 H1 H2).
Defined.
